(** * go_validate: the [Validation] session and the JSON input adapter

    A shallow embedding of [validation.go] (package [validate]) and of the
    [Unmarshal] helper of package [jsonutil].  A [*Validation] receiver is
    threaded explicitly: a method that mutates the session returns the new
    session.  Go maps are finite maps ([gmap]), a nil map being the empty
    one; a Go slice is its backing array together with its length. *)

From Stdlib Require Import ZArith Ascii String List Lia.
From Stdlib Require Strings.Byte.
From stdpp Require Import base option gmap strings list fin_maps pretty.

Open Scope string_scope.

(* ------------------------------------------------------------------ *)
(** ** Go run-time notions shared by both packages *)

(** A call either returns or panics (nil dereference, index out of range,
    failed type assertion). *)
Inductive M (A : Type) : Type :=
| Ok (a : A)
| Panic.
Arguments Ok {A} a.
Arguments Panic {A}.

#[global] Instance M_ret : MRet M := fun A a => Ok a.
#[global] Instance M_bind : MBind M := fun A B k m =>
  match m with
  | Ok a => k a
  | Panic => Panic
  end.

(** A slice header over its backing array; [cap] is the array's length. *)
Record slice (A : Type) : Type := mkSlice { array : list A; len : nat }.
Arguments mkSlice {A} array len.
Arguments array {A} s.
Arguments len {A} s.

(** The elements a [range] loop visits. *)
Definition elems {A : Type} (s : slice A) : list A := take (len s) (array s).

(** [s[:0]] *)
Definition reslice0 {A : Type} (s : slice A) : slice A :=
  {| array := array s; len := 0 |}.

(** A slice literal. *)
Definition sliceOf {A : Type} (l : list A) : slice A :=
  {| array := l; len := length l |}.

(** [s[0]] *)
Definition index0 {A : Type} (l : list A) : M A :=
  match l with
  | x :: _ => Ok x
  | [] => Panic
  end.

(** [strings.Split(s, sep)] for a one-byte separator: [cur] is the segment
    read so far. *)
Fixpoint splitFrom (sep : ascii) (cur : string) (s : string) : list string :=
  match s with
  | EmptyString => [cur]
  | String c rest =>
      if Ascii.eqb c sep
      then cur :: splitFrom sep EmptyString rest
      else splitFrom sep (cur +:+ String c EmptyString) rest
  end.

Definition Split (s : string) (sep : ascii) : list string :=
  splitFrom sep EmptyString s.

(** [strings.Join(elems, sep)] *)
Fixpoint Join (l : list string) (sep : string) : string :=
  match l with
  | [] => EmptyString
  | [x] => x
  | x :: rest => x +:+ sep +:+ Join rest sep
  end.

(** [strings.HasSuffix] and [strings.TrimSuffix] *)
Definition HasSuffix (s suffix : string) : bool :=
  (String.length suffix <=? String.length s)%nat &&
  String.eqb
    (substring (String.length s - String.length suffix) (String.length suffix) s)
    suffix.

Definition TrimSuffix (s suffix : string) : string :=
  if HasSuffix s suffix
  then substring 0 (String.length s - String.length suffix) s
  else s.

(** [strings.HasPrefix] and [strings.TrimPrefix] *)
Definition HasPrefix (s pre : string) : bool := String.prefix pre s.

Definition TrimPrefix (s pre : string) : string :=
  if HasPrefix s pre
  then substring (String.length pre) (String.length s - String.length pre) s
  else s.

(* ------------------------------------------------------------------ *)
(** ** Package validate *)

(** Values of static type [any].  A function value is named, since Go
    function values cannot be compared either. *)
Inductive any : Type :=
| anil
| AString (s : string)
| AInt (z : Z)
| ABool (b : bool)
| AFunc (id : string).

#[global] Instance any_eq_dec : EqDecision any.
Proof. solve_decision. Defined.

(** [reflect.Value]: [ValueOf] and [Interface]. *)
Record reflect_Value : Type := ValueOf { Interface : any }.

(** The [error] interface, observed through [Error()]. *)
Record error : Type := errorOf { Error : string }.

Definition filterError : string := "_filter".
Definition validateError : string := "_validate".

Definition validatorTypeBuiltin : Z := 1.
Definition validatorTypeCustom : Z := 2.

(** Modelled from the spec: the kinds of data source ([sourceStruct] and
    its siblings are declared next to the adapters, outside this file):
    "polymorphic over {struct-backed, map-backed, form-backed}". *)
Inductive sourceType : Type := sourceForm | sourceMap | sourceStruct.

#[global] Instance sourceType_eq_dec : EqDecision sourceType.
Proof. solve_decision. Defined.

(** Modelled from the spec: the [DataFace] interface, whose declaration and
    implementations live outside this file.  [D] is the state of the
    underlying record; [Set] returns the record after the write.
    [data_isStructData] is the dynamic type test behind the assertion
    [v.data.( *StructData)]; [data_FuncValue] is the struct adapter's
    "find method by name". *)
Class DataFace (D : Type) : Type := {
  data_Type : D -> sourceType;
  data_Get : D -> string -> any * bool;
  data_TryGet : D -> string -> any * bool * bool;
  data_Set : D -> string -> any -> D * (any * option error);
  data_isStructData : D -> bool;
  data_FuncValue : D -> string -> reflect_Value * bool
}.

(** Modelled from the spec: [Rule] and [FilterRule] are declared outside this
    file; "each holds target field(s), a function reference, static
    arguments, and per-rule policy flags".  [Filtering] reads
    [rule.fields]. *)
Record Rule : Type := {
  rule_fields : list string;
  rule_validator : string;
  rule_arguments : list any;
  rule_skipEmpty : bool
}.

Record FilterRule : Type := {
  fields : list string;
  filters : list string;
  filterArgs : list any
}.

(** Modelled from the spec: [funcMeta] and [newFuncMeta(name, isInternal, fv)]
    are declared outside this file: "name, provenance tag, resolved
    callable". *)
Record funcMeta : Type := newFuncMeta {
  fm_name : string;
  fm_isInternal : bool;
  fm_fv : reflect_Value
}.

(** Modelled from the spec: the [Translator] and its [FieldName] method are
    declared outside this file: "resolves the field's display name via an
    injected label map (falls back to the raw field name)". *)
Record Translator : Type := { labelMap : gmap string string }.

Definition FieldName (t : Translator) (field : string) : string :=
  match labelMap t !! field with
  | Some label => label
  | None => field
  end.

(** Modelled from the spec: the [Errors] type and its [Add] method are
    declared outside this file: a "mapping from field name -> mapping from
    validator name -> message string". *)
Abbreviation ErrorsMap := (gmap string (gmap string string)).

Definition Errors_Add (field validator msg : string) (es : ErrorsMap) : ErrorsMap :=
  match es !! field with
  | Some ms => <[field := <[validator := msg]> ms]> es
  | None => <[field := {[validator := msg]}]> es
  end.

(** The message stored for a field and a validator. *)
Definition Errors_lookup (es : ErrorsMap) (field validator : string) : option string :=
  match es !! field with
  | Some ms => ms !! validator
  | None => None
  end.

(** The [Validation] struct.  [data] is [None] for a nil interface; [trans]
    is the translator the constructor installs. *)
Record Validation (D : Type) : Type := mkValidation {
  data : option D;
  safeData : gmap string any;
  filteredData : gmap string any;
  defValues : gmap string any;
  Errors : ErrorsMap;
  StopOnError : bool;
  SkipOnEmpty : bool;
  UpdateSource : bool;
  CheckDefault : bool;
  hasError : bool;
  hasFiltered : bool;
  hasValidated : bool;
  rules : slice Rule;
  validators : gmap string Z;
  validatorMetas : gmap string funcMeta;
  scene : string;
  scenes : gmap string (list string);
  sceneFields : gmap string Z;
  filterRules : slice FilterRule;
  filterValues : gmap string reflect_Value;
  trans : Translator
}.
Arguments mkValidation {D}.
Arguments data {D} v.
Arguments safeData {D} v.
Arguments filteredData {D} v.
Arguments defValues {D} v.
Arguments Errors {D} v.
Arguments StopOnError {D} v.
Arguments SkipOnEmpty {D} v.
Arguments UpdateSource {D} v.
Arguments CheckDefault {D} v.
Arguments hasError {D} v.
Arguments hasFiltered {D} v.
Arguments hasValidated {D} v.
Arguments rules {D} v.
Arguments validators {D} v.
Arguments validatorMetas {D} v.
Arguments scene {D} v.
Arguments scenes {D} v.
Arguments sceneFields {D} v.
Arguments filterRules {D} v.
Arguments filterValues {D} v.
Arguments trans {D} v.

Section Setters.
Context {D : Type}.
Implicit Type v : Validation D.

(** Field assignments [v.f = x]. *)
Definition set_data (x : option D) v : Validation D :=
  mkValidation x (safeData v) (filteredData v) (defValues v) (Errors v)
    (StopOnError v) (SkipOnEmpty v) (UpdateSource v) (CheckDefault v)
    (hasError v) (hasFiltered v) (hasValidated v) (rules v) (validators v)
    (validatorMetas v) (scene v) (scenes v) (sceneFields v) (filterRules v)
    (filterValues v) (trans v).

Definition set_safeData (x : gmap string any) v : Validation D :=
  mkValidation (data v) x (filteredData v) (defValues v) (Errors v)
    (StopOnError v) (SkipOnEmpty v) (UpdateSource v) (CheckDefault v)
    (hasError v) (hasFiltered v) (hasValidated v) (rules v) (validators v)
    (validatorMetas v) (scene v) (scenes v) (sceneFields v) (filterRules v)
    (filterValues v) (trans v).

Definition set_filteredData (x : gmap string any) v : Validation D :=
  mkValidation (data v) (safeData v) x (defValues v) (Errors v)
    (StopOnError v) (SkipOnEmpty v) (UpdateSource v) (CheckDefault v)
    (hasError v) (hasFiltered v) (hasValidated v) (rules v) (validators v)
    (validatorMetas v) (scene v) (scenes v) (sceneFields v) (filterRules v)
    (filterValues v) (trans v).

Definition set_defValues (x : gmap string any) v : Validation D :=
  mkValidation (data v) (safeData v) (filteredData v) x (Errors v)
    (StopOnError v) (SkipOnEmpty v) (UpdateSource v) (CheckDefault v)
    (hasError v) (hasFiltered v) (hasValidated v) (rules v) (validators v)
    (validatorMetas v) (scene v) (scenes v) (sceneFields v) (filterRules v)
    (filterValues v) (trans v).

Definition set_Errors (x : ErrorsMap) v : Validation D :=
  mkValidation (data v) (safeData v) (filteredData v) (defValues v) x
    (StopOnError v) (SkipOnEmpty v) (UpdateSource v) (CheckDefault v)
    (hasError v) (hasFiltered v) (hasValidated v) (rules v) (validators v)
    (validatorMetas v) (scene v) (scenes v) (sceneFields v) (filterRules v)
    (filterValues v) (trans v).

Definition set_hasError (x : bool) v : Validation D :=
  mkValidation (data v) (safeData v) (filteredData v) (defValues v) (Errors v)
    (StopOnError v) (SkipOnEmpty v) (UpdateSource v) (CheckDefault v)
    x (hasFiltered v) (hasValidated v) (rules v) (validators v)
    (validatorMetas v) (scene v) (scenes v) (sceneFields v) (filterRules v)
    (filterValues v) (trans v).

Definition set_hasFiltered (x : bool) v : Validation D :=
  mkValidation (data v) (safeData v) (filteredData v) (defValues v) (Errors v)
    (StopOnError v) (SkipOnEmpty v) (UpdateSource v) (CheckDefault v)
    (hasError v) x (hasValidated v) (rules v) (validators v)
    (validatorMetas v) (scene v) (scenes v) (sceneFields v) (filterRules v)
    (filterValues v) (trans v).

Definition set_hasValidated (x : bool) v : Validation D :=
  mkValidation (data v) (safeData v) (filteredData v) (defValues v) (Errors v)
    (StopOnError v) (SkipOnEmpty v) (UpdateSource v) (CheckDefault v)
    (hasError v) (hasFiltered v) x (rules v) (validators v)
    (validatorMetas v) (scene v) (scenes v) (sceneFields v) (filterRules v)
    (filterValues v) (trans v).

Definition set_rules (x : slice Rule) v : Validation D :=
  mkValidation (data v) (safeData v) (filteredData v) (defValues v) (Errors v)
    (StopOnError v) (SkipOnEmpty v) (UpdateSource v) (CheckDefault v)
    (hasError v) (hasFiltered v) (hasValidated v) x (validators v)
    (validatorMetas v) (scene v) (scenes v) (sceneFields v) (filterRules v)
    (filterValues v) (trans v).

Definition set_validators (x : gmap string Z) v : Validation D :=
  mkValidation (data v) (safeData v) (filteredData v) (defValues v) (Errors v)
    (StopOnError v) (SkipOnEmpty v) (UpdateSource v) (CheckDefault v)
    (hasError v) (hasFiltered v) (hasValidated v) (rules v) x
    (validatorMetas v) (scene v) (scenes v) (sceneFields v) (filterRules v)
    (filterValues v) (trans v).

Definition set_validatorMetas (x : gmap string funcMeta) v : Validation D :=
  mkValidation (data v) (safeData v) (filteredData v) (defValues v) (Errors v)
    (StopOnError v) (SkipOnEmpty v) (UpdateSource v) (CheckDefault v)
    (hasError v) (hasFiltered v) (hasValidated v) (rules v) (validators v)
    x (scene v) (scenes v) (sceneFields v) (filterRules v)
    (filterValues v) (trans v).

Definition set_scene (x : string) v : Validation D :=
  mkValidation (data v) (safeData v) (filteredData v) (defValues v) (Errors v)
    (StopOnError v) (SkipOnEmpty v) (UpdateSource v) (CheckDefault v)
    (hasError v) (hasFiltered v) (hasValidated v) (rules v) (validators v)
    (validatorMetas v) x (scenes v) (sceneFields v) (filterRules v)
    (filterValues v) (trans v).

Definition set_scenes (x : gmap string (list string)) v : Validation D :=
  mkValidation (data v) (safeData v) (filteredData v) (defValues v) (Errors v)
    (StopOnError v) (SkipOnEmpty v) (UpdateSource v) (CheckDefault v)
    (hasError v) (hasFiltered v) (hasValidated v) (rules v) (validators v)
    (validatorMetas v) (scene v) x (sceneFields v) (filterRules v)
    (filterValues v) (trans v).

Definition set_sceneFields (x : gmap string Z) v : Validation D :=
  mkValidation (data v) (safeData v) (filteredData v) (defValues v) (Errors v)
    (StopOnError v) (SkipOnEmpty v) (UpdateSource v) (CheckDefault v)
    (hasError v) (hasFiltered v) (hasValidated v) (rules v) (validators v)
    (validatorMetas v) (scene v) (scenes v) x (filterRules v)
    (filterValues v) (trans v).

Definition set_filterRules (x : slice FilterRule) v : Validation D :=
  mkValidation (data v) (safeData v) (filteredData v) (defValues v) (Errors v)
    (StopOnError v) (SkipOnEmpty v) (UpdateSource v) (CheckDefault v)
    (hasError v) (hasFiltered v) (hasValidated v) (rules v) (validators v)
    (validatorMetas v) (scene v) (scenes v) (sceneFields v) x
    (filterValues v) (trans v).

Definition set_trans (x : Translator) v : Validation D :=
  mkValidation (data v) (safeData v) (filteredData v) (defValues v) (Errors v)
    (StopOnError v) (SkipOnEmpty v) (UpdateSource v) (CheckDefault v)
    (hasError v) (hasFiltered v) (hasValidated v) (rules v) (validators v)
    (validatorMetas v) (scene v) (scenes v) (sceneFields v) (filterRules v)
    (filterValues v) x.
End Setters.

(** A method call through an interface value or pointer that may be nil. *)
Definition deref {A : Type} (p : option A) : M A :=
  match p with
  | Some a => Ok a
  | None => Panic
  end.

Definition isNil {A : Type} (p : option A) : bool :=
  match p with
  | Some _ => false
  | None => true
  end.

Section Session.
Context {D : Type} `{DataFace D}.

(** [FilterRule.Apply(v)] is declared outside this file: it may update the
  session and reports an error or nil. *)
Variable Apply : FilterRule -> Validation D -> Validation D * option error.

(** The package-level table [validatorMetas] of global validators, the
  package-level error [ErrEmptyData] and [checkValidatorFunc], which
  panics on a malformed callable, are declared outside this file. *)
Variable globalValidatorMetas : gmap string funcMeta.
Variable ErrEmptyData : error.
Variable checkValidatorFunc : string -> any -> M reflect_Value.

Implicit Type v : Validation D.

(** *** validation settings *)

Definition ResetResult v : Validation D :=
  let v := set_Errors ∅ v in
  let v := set_hasError false v in
  let v := set_hasFiltered false v in
  let v := set_hasValidated false v in
  let v := set_safeData ∅ v in
  set_filteredData ∅ v.

Definition resetRules v : Validation D :=
  let v := set_rules (reslice0 (rules v)) v in
  set_filterRules (reslice0 (filterRules v)) v.

Definition Reset v : Validation D :=
  let v := ResetResult v in
  resetRules v.

Definition WithTrans (t : Translator) v : Validation D := set_trans t v.

Definition WithScenes (s : gmap string (list string)) v : Validation D :=
  set_scenes s v.

Definition WithScenarios (s : gmap string (list string)) v : Validation D :=
  WithScenes s v.

Definition AtScene (s : string) v : Validation D := set_scene s v.

Definition InScene (s : string) v : Validation D := AtScene s v.

Definition SetScene (s : list string) v : Validation D :=
  match s with
  | s0 :: _ => AtScene s0 v
  | [] => v
  end.

(** *** add validators for validation *)

Definition AddValidator (name : string) (checkFunc : any) v : M (Validation D) :=
  fv ← checkValidatorFunc name checkFunc;
  let v := set_validators (<[name := validatorTypeCustom]> (validators v)) v in
  let v := set_validatorMetas
             (<[name := newFuncMeta name false fv]> (validatorMetas v)) v in
  mret v.

(** Returns the session, which the struct-method case updates, and the
  meta found ([None] for nil). *)
Definition validatorMeta (name : string) v : M (Validation D * option funcMeta) :=
  match validatorMetas v !! name with
  | Some fm => mret (v, Some fm)
  | None =>
    match globalValidatorMetas !! name with
    | Some fm => mret (v, Some fm)
    | None =>
      d ← deref (data v);
      if decide (data_Type d = sourceStruct) then
        s ← (if data_isStructData d then mret d else Panic);
        let '(fv, ok) := data_FuncValue s name in
        if ok then
          let fm := newFuncMeta name false fv in
          let v := set_validators (<[name := validatorTypeCustom]> (validators v)) v in
          let v := set_validatorMetas (<[name := fm]> (validatorMetas v)) v in
          mret (v, Some fm)
        else mret (v, None)
      else mret (v, None)
    end
  end.

(** *** result flags *)

Definition IsOK v : bool := negb (hasError v).
Definition IsFail v : bool := hasError v.
Definition IsSuccess v : bool := negb (hasError v).
Definition shouldStop v : bool := hasError v && StopOnError v.

(** *** errors messages *)

Definition AddError (field validator msg : string) v : Validation D :=
  let v := if negb (hasError v) then set_hasError true v else v in
  let field := FieldName (trans v) field in
  set_Errors (Errors_Add field validator msg (Errors v)) v.

Definition WithError (err : option error) v : Validation D :=
  match err with
  | Some e => AddError validateError validateError (Error e) v
  | None => v
  end.

(** Modelled from the spec: [Translator.AddLabelMap] is declared outside
  this file: "later additions override earlier ones for the same key". *)
Definition AddLabelMap (m : gmap string string) (t : Translator) : Translator :=
  {| labelMap := m ∪ labelMap t |}.

Definition AddTranslates (m : gmap string string) v : Validation D :=
  set_trans (AddLabelMap m (trans v)) v.

Definition WithTranslates (m : gmap string string) v : Validation D :=
  AddTranslates m v.

(** *** Do filtering/sanitize *)

(** The loop of [Filtering] over the rules [rs].  The second component is
  a ghost record, which the source does not keep: the rules [Apply] was
  called on, in call order. *)
Fixpoint filterLoop (rs : list FilterRule) v : M (Validation D * list FilterRule) :=
  match rs with
  | [] => mret (v, [])
  | rule :: rest =>
    let '(v1, err) := Apply rule v in
    match err with
    | Some e =>
      f0 ← index0 (fields rule);
      mret (AddError filterError filterError (f0 +:+ ": " +:+ Error e) v1, [rule])
    | None =>
      r ← filterLoop rest v1;
      mret (r.1, rule :: r.2)
    end
  end.

Definition Filtering v : M (Validation D * bool) :=
  if hasFiltered v then mret (v, IsSuccess v)
  else
    r ← filterLoop (elems (filterRules v)) v;
    let v := set_hasFiltered true r.1 in
    mret (v, IsSuccess v).

(** [AppliesOk rs v v']: applying the rules [rs] in order, starting from
  [v], reports no error and ends in [v']. *)
Inductive AppliesOk : list FilterRule -> Validation D -> Validation D -> Prop :=
| AppliesOk_nil v : AppliesOk [] v v
| AppliesOk_cons rule rest v v1 v2 :
  Apply rule v = (v1, None) ->
  AppliesOk rest v1 v2 ->
  AppliesOk (rule :: rest) v v2.

(** The rules one call of [Filtering] applies (the ghost record of its
  loop). *)
Definition Filtering_applied v : list FilterRule :=
  if hasFiltered v then []
  else
    match filterLoop (elems (filterRules v)) v with
    | Ok r => r.2
    | Panic => []
    end.

Definition Sanitize v : M (Validation D * bool) := Filtering v.

(** *** getter methods *)

Definition Raw (key : string) v : M (any * bool) :=
  if isNil (data v) then mret (anil, false)
  else d ← deref (data v); mret (data_Get d key).

Definition RawVal (key : string) v : M any :=
  if isNil (data v) then mret anil
  else d ← deref (data v); mret (data_Get d key).1.

Definition tryGet (key : string) v : M (any * bool * bool) :=
  if isNil (data v) then mret (anil, false, false)
  else
    match filteredData v !! key with
    | Some val => mret (val, true, false)
    | None =>
      match safeData v !! key with
      | Some val => mret (val, true, false)
      | None => d ← deref (data v); mret (data_TryGet d key)
      end
    end.

Definition Get (key : string) v : M (any * bool) :=
  r ← tryGet key v;
  mret (r.1.1, r.1.2).

(** Returns [(val, exist, isDefault)]. *)
Definition GetWithDefault (key : string) v : M (any * bool * bool) :=
  r ← tryGet key v;
  let '(val, found, zero) := r in
  if found && negb zero then mret (val, found, false)
  else
    match defValues v !! key with
    | Some defVal => mret (defVal, found, true)
    | None => mret (val, found, false)
    end.

Definition Filtered (key : string) v : any :=
  match filteredData v !! key with
  | Some val => val
  | None => anil
  end.

Definition Safe (key : string) v : any * bool :=
  if isNil (data v) then (anil, false)
  else
    match safeData v !! key with
    | Some val => (val, true)
    | None => (anil, false)
    end.

Definition SafeVal (key : string) v : any := (Safe key v).1.
Definition GetSafe (key : string) v : any := (Safe key v).1.

(** [Set]; the session holds the data source after the write. *)
Definition Set' (field : string) (val : any) v : M (Validation D * option error) :=
  if isNil (data v) then mret (v, Some ErrEmptyData)
  else
    d ← deref (data v);
    let '(d', (_, err)) := data_Set d field val in
    mret (set_data (Some d') v, err).

Definition updateValue (field : string) (val : any) v
  : M (Validation D * (any * option error)) :=
  d ← deref (data v);
  if decide (data_Type d = sourceStruct) then
    let '(d', r) := data_Set d (TrimSuffix field ".*") val in
    mret (set_data (Some d') v, r)
  else mret (v, (val, None)).

Definition SetDefValue (field : string) (val : any) v : Validation D :=
  set_defValues (<[field := val]> (defValues v)) v.

Definition GetDefValue (field : string) v : any * bool :=
  match defValues v !! field with
  | Some defVal => (defVal, true)
  | None => (anil, false)
  end.

(** *** scenes *)

Definition SceneFields v : list string :=
  match scenes v !! scene v with
  | Some fs => fs
  | None => []
  end.

Definition sceneFieldMap v : gmap string Z :=
  if decide (scene v = "") then ∅
  else
    match scenes v !! scene v with
    | Some fs => foldl (fun m field => <[field := 1%Z]> m) ∅ fs
    | None => ∅
    end.

Definition Scene v : string := scene v.
Definition SafeData v : gmap string any := safeData v.
Definition FilteredData v : gmap string any := filteredData v.

(** The loop [for i := 0; i < len(fields); i++] of [isNotNeedToCheck],
  from index [i] with [n] iterations left: [true] when it returns from
  inside the loop. *)
Fixpoint ancestorListed (sf : gmap string Z) (fs : list string) (n i : nat) : bool :=
  match n with
  | O => false
  | S n' =>
    match sf !! Join (take i fs) "." with
    | Some _ => true
    | None => ancestorListed sf fs n' (S i)
    end
  end.

Definition isNotNeedToCheck (field : string) v : bool :=
  if (size (sceneFields v) =? 0)%nat then false
  else
    let fs := Split field "." in
    if ancestorListed (sceneFields v) fs (length fs) 0 then false
    else
      match sceneFields v !! field with
      | Some _ => false
      | None => true
      end.

(** *** sequences of calls on one session *)

(** The methods above that update the session, as a caller issues them. *)
Inductive call : Type :=
| CallAddError (field validator msg : string)
| CallWithError (err : option error)
| CallFiltering
| CallSetDefValue (field : string) (val : any)
| CallSet (field : string) (val : any)
| CallUpdateValue (field : string) (val : any)
| CallValidatorMeta (name : string)
| CallAddValidator (name : string) (checkFunc : any)
| CallAtScene (s : string)
| CallWithScenes (s : gmap string (list string))
| CallWithTrans (t : Translator)
| CallAddTranslates (m : gmap string string)
| CallResetResult
| CallReset.

Definition isReset (c : call) : bool :=
  match c with
  | CallResetResult | CallReset => true
  | _ => false
  end.

Definition exec (c : call) v : M (Validation D) :=
  match c with
  | CallAddError field validator msg => mret (AddError field validator msg v)
  | CallWithError err => mret (WithError err v)
  | CallFiltering => r ← Filtering v; mret r.1
  | CallSetDefValue field val => mret (SetDefValue field val v)
  | CallSet field val => r ← Set' field val v; mret r.1
  | CallUpdateValue field val => r ← updateValue field val v; mret r.1
  | CallValidatorMeta name => r ← validatorMeta name v; mret r.1
  | CallAddValidator name checkFunc => AddValidator name checkFunc v
  | CallAtScene s => mret (AtScene s v)
  | CallWithScenes s => mret (WithScenes s v)
  | CallWithTrans t => mret (WithTrans t v)
  | CallAddTranslates m => mret (AddTranslates m v)
  | CallResetResult => mret (ResetResult v)
  | CallReset => mret (Reset v)
  end.

Fixpoint run (cs : list call) v : M (Validation D) :=
  match cs with
  | [] => mret v
  | c :: rest => v1 ← exec c v; run rest v1
  end.

(** *** the registry seen from outside *)

(** [ValidatorName] (alias resolution) and the package-level table
    [validators] of global validator types are declared outside this file. *)
Variable ValidatorName : string -> string.
Variable globalValidators : gmap string Z.

Definition HasValidator (name : string) v : bool :=
  let name := ValidatorName name in
  match validatorMetas v !! name with
  | Some _ => true
  | None =>
    match globalValidatorMetas !! name with
    | Some _ => true
    | None => false
    end
  end.

(** [for name, typ := range m { mp[name] = typ }]: a [range] over a map
    visits each key once, in an order Go leaves open. *)
Definition copyInto (m mp : gmap string Z) : gmap string Z :=
  map_fold (fun name typ mp => <[name := typ]> mp) mp m.

Definition Validators (withGlobal : bool) v : gmap string Z :=
  if withGlobal then
    let mp := copyInto globalValidators ∅ in
    copyInto (validators v) mp
  else validators v.

(** [AddValidators]: [AddValidator] for every entry of the map [m]. *)
Definition AddValidators (m : gmap string any) v : M (Validation D) :=
  map_fold (fun name checkFunc acc => v ← acc; AddValidator name checkFunc v)
    (mret v) m.

(** *** properties of sessions used in the statements below *)

(** Every field of the session but [data] is the same in [v] and [v']. *)
Definition sameExceptData v v' : Prop :=
  safeData v' = safeData v /\ filteredData v' = filteredData v /\
  defValues v' = defValues v /\ Errors v' = Errors v /\
  StopOnError v' = StopOnError v /\ SkipOnEmpty v' = SkipOnEmpty v /\
  UpdateSource v' = UpdateSource v /\ CheckDefault v' = CheckDefault v /\
  hasError v' = hasError v /\ hasFiltered v' = hasFiltered v /\
  hasValidated v' = hasValidated v /\ rules v' = rules v /\
  validators v' = validators v /\ validatorMetas v' = validatorMetas v /\
  scene v' = scene v /\ scenes v' = scenes v /\
  sceneFields v' = sceneFields v /\ filterRules v' = filterRules v /\
  filterValues v' = filterValues v /\ trans v' = trans v.

(** The state of [AddValidators] after the entries of [m]. *)
Definition registeredAll (m : gmap string any) v (r : M (Validation D)) : Prop :=
  match r with
  | Ok v' =>
    (forall name,
       validatorMetas v' !! name =
         match m !! name with
         | Some f =>
           match checkValidatorFunc name f with
           | Ok fv => Some (newFuncMeta name false fv)
           | Panic => None
           end
         | None => validatorMetas v !! name
         end) /\
    (forall name,
       validators v' !! name =
         match m !! name with
         | Some _ => Some validatorTypeCustom
         | None => validators v !! name
         end) /\
    (forall name f, m !! name = Some f ->
       exists fv, checkValidatorFunc name f = Ok fv)
  | Panic => exists name f, m !! name = Some f /\ checkValidatorFunc name f = Panic
  end.


(** The run-state of a session is cleared. *)
Definition runStateCleared v : Prop :=
  Errors v = ∅ /\ hasError v = false /\ hasFiltered v = false /\
  hasValidated v = false /\ safeData v = ∅ /\ filteredData v = ∅.

(** The lookup chain for one key: the first hit among filteredData,
  safeData and the data source's [TryGet], the first two with
  [zero = false]. *)
Definition followsChain v (key : string) : Prop :=
  (forall x, filteredData v !! key = Some x ->
   tryGet key v = Ok (x, true, false)) /\
  (forall x, filteredData v !! key = None -> safeData v !! key = Some x ->
   tryGet key v = Ok (x, true, false)) /\
  (forall d, filteredData v !! key = None -> safeData v !! key = None ->
   data v = Some d -> tryGet key v = Ok (data_TryGet d key)).

(** The default fallback for one key: [GetWithDefault] returns what
  the chain found when it is present and not zero, and the registered
  default otherwise. *)
Definition defaultFallback v (key : string) : Prop :=
  forall val found zero, tryGet key v = Ok (val, found, zero) ->
  (found = true -> zero = false ->
     GetWithDefault key v = Ok (val, true, false)) /\
  (found = false \/ zero = true ->
     forall defVal, defValues v !! key = Some defVal ->
       GetWithDefault key v = Ok (defVal, found, true)) /\
  (found = false \/ zero = true -> defValues v !! key = None ->
     GetWithDefault key v = Ok (val, found, false)).

(** What a session keeps of its errors from [v] to [v']: a set fail flag
  stays set and no entry disappears. *)
Definition keepsErrors v v' : Prop :=
  (hasError v = true -> hasError v' = true) /\
  (forall field validator,
   is_Some (Errors_lookup (Errors v) field validator) ->
   is_Some (Errors_lookup (Errors v') field validator)).

End Session.

(* ------------------------------------------------------------------ *)
(** ** Sessions and data sources used in the examples *)

(** Modelled from the spec: a map-backed source, whose adapter is declared
    outside this file: presence is the only signal ([isZero] is always
    false) and [Set] is "a no-op passthrough that returns the value
    unchanged". *)
Record MapData : Type := { Map : gmap string any }.

#[global] Instance MapData_DataFace : DataFace MapData := {|
  data_Type := fun _ => sourceMap;
  data_Get := fun d key =>
    match Map d !! key with Some x => (x, true) | None => (anil, false) end;
  data_TryGet := fun d key =>
    match Map d !! key with Some x => (x, true, false) | None => (anil, false, false) end;
  data_Set := fun d _ val => (d, (val, None));
  data_isStructData := fun _ => false;
  data_FuncValue := fun _ _ => (ValueOf anil, false)
|}.

(** The zero value of each dynamic type. *)
Definition isZero (x : any) : bool :=
  match x with
  | anil => true
  | AString s => String.eqb s ""
  | AInt z => (z =? 0)%Z
  | ABool b => negb b
  | AFunc _ => false
  end.

(** Modelled from the spec: a struct-backed source, whose adapter is declared
    outside this file: [Set] "performs an actual in-place field mutation",
    [TryGet] reports zero values, and methods are found by name. *)
Record StructData : Type := { Src : gmap string any; Methods : gmap string any }.

#[global] Instance StructData_DataFace : DataFace StructData := {|
  data_Type := fun _ => sourceStruct;
  data_Get := fun d key =>
    match Src d !! key with Some x => (x, true) | None => (anil, false) end;
  data_TryGet := fun d key =>
    match Src d !! key with Some x => (x, true, isZero x) | None => (anil, false, false) end;
  data_Set := fun d key val =>
    ({| Src := <[key := val]> (Src d); Methods := Methods d |}, (val, None));
  data_isStructData := fun _ => true;
  data_FuncValue := fun d name =>
    match Methods d !! name with
    | Some f => (ValueOf f, true)
    | None => (ValueOf anil, false)
    end
|}.

(** A session right after construction: no rules, no results. *)
Definition emptySession {D : Type} (d : option D) : Validation D :=
  mkValidation d ∅ ∅ ∅ ∅ false false false false false false false
    (sliceOf []) ∅ ∅ "" ∅ ∅ (sliceOf []) ∅ {| labelMap := ∅ |}.

(** A filter application for the examples: the filter named [fail] reports
    an error, every other rule writes the names of its filters into
    [filteredData] under each of its joined fields. *)
Definition sampleApply {D : Type} (r : FilterRule) (v : Validation D)
  : Validation D * option error :=
  if existsb (String.eqb "fail") (filters r) then (v, Some (errorOf "cannot convert"))
  else
    (set_filteredData
       (<[Join (fields r) "," := AString (Join (filters r) "|")]> (filteredData v)) v,
     None).

Definition sampleCheckFunc (name : string) (f : any) : M reflect_Value :=
  match f with
  | AFunc _ => Ok (ValueOf f)
  | _ => Panic
  end.

Definition trimName : FilterRule :=
  {| fields := ["name"]; filters := ["trim"]; filterArgs := [] |}.
Definition failAge : FilterRule :=
  {| fields := ["age"]; filters := ["fail"]; filterArgs := [] |}.
Definition lowerEmail : FilterRule :=
  {| fields := ["email"]; filters := ["lower"]; filterArgs := [] |}.
Definition requireName : Rule :=
  {| rule_fields := ["name"]; rule_validator := "required"; rule_arguments := [];
     rule_skipEmpty := false |}.

Definition userMap : MapData :=
  {| Map := <["name" := AString " bob "]> (<["age" := AString "x"]> ∅) |}.

Definition userStruct : StructData :=
  {| Src := <["name" := AString "bob"]> (<["age" := AInt 0]> ∅);
     Methods := <["checkAge" := AFunc "User.checkAge"]> ∅ |}.

(** A session over [userMap] with one rule and three filter rules. *)
Definition userSession : Validation MapData :=
  set_rules (sliceOf [requireName])
    (set_filterRules (sliceOf [trimName; failAge; lowerEmail])
       (emptySession (Some userMap))).

(** A session over [userStruct] with a default for [age]. *)
Definition structSession : Validation StructData :=
  set_defValues (<["age" := AInt 18]> ∅) (emptySession (Some userStruct)).

(** A session without a data source whose result maps are not empty. *)
Definition nilSession : Validation MapData :=
  set_safeData (<["name" := AString "bob"]> ∅)
    (set_filteredData (<["age" := AInt 30]> ∅) (emptySession None)).

(** A session in the scene [update], whose field list holds an empty name. *)
Definition updateScene : Validation MapData :=
  set_scene "update"
    (set_scenes (<["update" := ["name"; ""]]> ∅) (emptySession (Some userMap))).

(** The same session once a validation run has set
    [v.sceneFields = v.sceneFieldMap()]. *)
Definition updateSceneRun : Validation MapData :=
  set_sceneFields (sceneFieldMap updateScene) updateScene.

(** A session over [userStruct] in the scene [create], which lists [name]
    and the group [address]. *)
Definition createScene : Validation StructData :=
  set_scene "create"
    (set_scenes (<["create" := ["name"; "address"]]> (<["update" := ["name"]]> ∅))
       (emptySession (Some userStruct))).

(** A session over [userMap] whose two filter rules both apply. *)
Definition cleanSession : Validation MapData :=
  set_filterRules (sliceOf [trimName; lowerEmail]) (emptySession (Some userMap)).

(** [createScene] once a validation run has set its scene fields. *)
Definition createSceneRun : Validation StructData :=
  set_sceneFields (sceneFieldMap createScene) createScene.

(** [cleanSession] after a run that failed on [name]. *)
Definition failedSession : Validation MapData :=
  set_hasFiltered true (AddError "name" "required" "name is required" cleanSession).

(** An alias table for the examples: [even] stands for [isEven]. *)
Definition sampleValidatorName (name : string) : string :=
  if String.eqb name "even" then "isEven" else name.

(** [structSession] with the custom validator [isEven]. *)
Definition registeredSession : Validation StructData :=
  set_validatorMetas
    (<["isEven" := newFuncMeta "isEven" false (ValueOf (AFunc "isEven"))]> ∅)
    (set_validators (<["isEven" := validatorTypeCustom]> ∅) structSession).

(** Two callables to register together. *)
Definition parityChecks : gmap string any :=
  <["isEven" := AFunc "isEven"]> (<["isOdd" := AFunc "isOdd"]> ∅).

(** [userSession] with a validated [name]. *)
Definition validatedSession : Validation MapData :=
  set_safeData (<["name" := AString "bob"]> ∅) userSession.

(* ------------------------------------------------------------------ *)
(** ** Package jsonutil *)

Module Jsonutil.

Definition StatusOK : Z := 200.
Definition StatusBadRequest : Z := 400.
Definition StatusRequestEntityTooLarge : Z := 413.
Definition StatusUnsupportedMediaType : Z := 415.
Definition StatusInternalServerError : Z := 500.

(** An [error] value as [Unmarshal] observes it: its text, what [errors.As]
    finds for [*json.SyntaxError] (the offset) and for
    [*json.UnmarshalTypeError] (field and offset), and what [errors.Is]
    answers for [io.ErrUnexpectedEOF] and [io.EOF]. *)
Record error : Type := {
  Error : string;
  asSyntaxError : option Z;
  isUnexpectedEOF : bool;
  asUnmarshalTypeError : option (string * Z);
  isEOF : bool
}.

(** [fmt.Errorf] of an already formatted text. *)
Definition Errorf (msg : string) : error :=
  {| Error := msg; asSyntaxError := None; isUnexpectedEOF := false;
     asUnmarshalTypeError := None; isEOF := false |}.

(** An [*http.Request]: the value of its [Content-type] header and what
    [ioutil.ReadAll(r.Body)] returns. *)
Record Request : Type := {
  ContentType : string;
  Body : list Byte.byte * option error
}.

Section Adapter.

(** The standard library: [mime.ParseMediaType] (the media type, or an
    error), the first [Decode] of a [json.Decoder] over the given bytes (nil
    or an error) and [More] after it. *)
Variable ParseMediaType : string -> option string.
Variable Decode : list Byte.byte -> option error.
Variable More : list Byte.byte -> bool.

(** The loop of [HasContentType] over the comma-separated header values. *)
Fixpoint hasMediaType (parts : list string) (mimetype : string) : bool :=
  match parts with
  | [] => false
  | v :: rest =>
    match ParseMediaType v with
    | None => false
    | Some t => if String.eqb t mimetype then true else hasMediaType rest mimetype
    end
  end.

Definition HasContentType (r : Request) (mimetype : string) : bool :=
  let contentType := ContentType r in
  if String.eqb contentType "" then String.eqb mimetype "application/octet-stream"
  else hasMediaType (Split contentType ",") mimetype.

(** The decoding half of [Unmarshal]: [d.Decode(&v)], the switch over its
    error, and [d.More()]. *)
Definition decodeBody (input : list Byte.byte) : Z * option error :=
  match Decode input with
  | Some err =>
    match asSyntaxError err with
    | Some offset =>
      (StatusBadRequest, Some (Errorf ("malformed json at position " +:+ pretty offset)))
    | None =>
      if isUnexpectedEOF err then (StatusBadRequest, Some (Errorf "malformed json"))
      else
        match asUnmarshalTypeError err with
        | Some (field, offset) =>
          (StatusBadRequest,
           Some (Errorf ("invalid value " +:+ field +:+ " at position " +:+ pretty offset)))
        | None =>
          if HasPrefix (Error err) "json: unknown field" then
            let fieldName := TrimPrefix (Error err) "json: unknown field " in
            (StatusBadRequest, Some (Errorf ("unknown field " +:+ fieldName)))
          else if isEOF err then
            (StatusBadRequest, Some (Errorf "body must not be empty"))
          else if String.eqb (Error err) "http: request body too large" then
            (StatusRequestEntityTooLarge, Some err)
          else
            (StatusInternalServerError,
             Some (Errorf ("failed to decode json " +:+ Error err)))
        end
    end
  | None =>
    if More input then
      (StatusBadRequest, Some (Errorf "body must contain only one JSON object"))
    else (StatusOK, None)
  end.

(** [Unmarshal(r, data, v)]: the status and the error returned.  [None] is
    a nil request or a nil byte slice. *)
Definition Unmarshal (r : option Request) (data : option (list Byte.byte))
  : Z * option error :=
  match r, data with
  | None, None =>
    (StatusUnsupportedMediaType, Some (Errorf "no data provided"))
  | Some _, Some _ =>
    (StatusUnsupportedMediaType,
     Some (Errorf "multiple data provided for unmarshalling not supported"))
  | Some req, None =>
    let '(bodyBytes, err) := Body req in
    match err with
    | Some _ => (StatusBadRequest, Some (Errorf "error reading request body"))
    | None =>
      if negb (HasContentType req "application/json") then
        (StatusUnsupportedMediaType, Some (Errorf "content-type is not application/json"))
      else decodeBody bodyBytes
    end
  | None, Some bytes => decodeBody bytes
  end.

End Adapter.

(** The error [http.MaxBytesReader] reports once a body exceeds its limit. *)
Definition errBodyTooLarge : error := Errorf "http: request body too large".

(** A JSON request whose body is cut off by the size limit while it is
    read. *)
Definition oversizedRequest : Request :=
  {| ContentType := "application/json"; Body := ([], Some errBodyTooLarge) |}.

(** A media type parser for the examples: it knows two types and rejects
    everything else. *)
Definition sampleParseMediaType (s : string) : option string :=
  if String.eqb s "application/json" then Some s
  else if String.eqb s "text/plain" then Some s
  else None.

(** A decoder for the examples: the empty input is an empty body, every
    other input is one JSON value. *)
Definition sampleDecode (input : list Byte.byte) : option error :=
  match input with
  | [] => Some {| Error := "EOF"; asSyntaxError := None; isUnexpectedEOF := false;
                  asUnmarshalTypeError := None; isEOF := true |}
  | _ => None
  end.

Definition sampleMore (input : list Byte.byte) : bool := false.

(** A readable JSON request. *)
Definition jsonRequest : Request :=
  {| ContentType := "text/plain,application/json";
     Body := ([Byte.x7b; Byte.x7d], None) |}.

(** A decoder for the examples that rejects the field [nick]. *)
Definition sampleStrictDecode (input : list Byte.byte) : option error :=
  Some (Errorf "json: unknown field nick").

(** A plain-text request whose body cannot be read. *)
Definition brokenBodyRequest : Request :=
  {| ContentType := "text/plain"; Body := ([], Some (Errorf "unexpected EOF")) |}.

End Jsonutil.

(* ------------------------------------------------------------------ *)
(** ** Facts about the string helpers *)

Lemma length_append (s t : string) :
  String.length (s +:+ t) = String.length s + String.length t.
Proof. induction s as [|c s IH]; simpl; [reflexivity | now rewrite IH]. Qed.

Lemma substring_whole (t : string) : substring 0 (String.length t) t = t.
Proof. induction t as [|c t IH]; simpl; [reflexivity | now rewrite IH]. Qed.

Lemma substring_append_right (s t : string) :
  substring (String.length s) (String.length t) (s +:+ t) = t.
Proof. induction s as [|c s IH]; simpl; [apply substring_whole | exact IH]. Qed.

Lemma substring_append_left (s t : string) :
  substring 0 (String.length s) (s +:+ t) = s.
Proof.
  induction s as [|c s IH]; simpl.
  - now destruct t.
  - now rewrite IH.
Qed.

(** [Split] returns at least one segment. *)
Lemma splitFrom_length (sep : ascii) (s : string) :
  forall cur, 0 < length (splitFrom sep cur s).
Proof.
  induction s as [|c s IH]; intros cur; simpl; [lia |].
  destruct (Ascii.eqb c sep); simpl; [lia | apply IH].
Qed.

Lemma splitFrom_cons (sep : ascii) (s cur : string) :
  exists x l, splitFrom sep cur s = x :: l.
Proof.
  pose proof (splitFrom_length sep s cur) as Hl.
  destruct (splitFrom sep cur s) as [|x l]; [simpl in Hl; lia | eauto].
Qed.

Lemma append_cons (c : ascii) (s t : string) :
  String c s +:+ t = String c (s +:+ t).
Proof. reflexivity. Qed.

Lemma append_nil_r (s : string) : s +:+ "" = s.
Proof.
  induction s as [|c s IH]; [reflexivity | now rewrite append_cons, IH].
Qed.

Lemma append_assoc (s t u : string) : (s +:+ t) +:+ u = s +:+ (t +:+ u).
Proof.
  induction s as [|c s IH]; [reflexivity | now rewrite !append_cons, IH].
Qed.

(** Joining the segments of a split with the separator gives the string
    back. *)
Lemma Join_splitFrom (sep : ascii) (s : string) :
  forall cur, Join (splitFrom sep cur s) (String sep "") = cur +:+ s.
Proof.
  induction s as [|c s IH]; intros cur; simpl.
  - now rewrite append_nil_r.
  - destruct (Ascii.eqb c sep) eqn:E.
    + apply Ascii.eqb_eq in E. subst c.
      destruct (splitFrom_cons sep s "") as (x & l & Hx).
      specialize (IH ""). rewrite Hx in *.
      change (Join (cur :: x :: l) (String sep ""))
        with (cur +:+ String sep "" +:+ Join (x :: l) (String sep "")).
      rewrite IH. reflexivity.
    + rewrite IH, append_assoc. reflexivity.
Qed.

Lemma Join_Split (s : string) (sep : ascii) : Join (Split s sep) (String sep "") = s.
Proof. unfold Split. now rewrite Join_splitFrom. Qed.

(** A trailing suffix is removed, once. *)
Lemma TrimSuffix_append (s suffix : string) :
  TrimSuffix (s +:+ suffix) suffix = s.
Proof.
  unfold TrimSuffix, HasSuffix.
  rewrite length_append.
  replace (String.length s + String.length suffix - String.length suffix)
    with (String.length s) by lia.
  rewrite substring_append_right, String.eqb_refl, substring_append_left.
  now replace (String.length suffix <=? String.length s + String.length suffix)%nat
    with true by (symmetry; apply Nat.leb_le; lia).
Qed.

(** A string is its first [n] bytes followed by the rest. *)
Lemma substring_split (s : string) :
  forall n, n <= String.length s ->
    s = substring 0 n s +:+ substring n (String.length s - n) s.
Proof.
  induction s as [|c s IH]; intros n Hn.
  - simpl in Hn. now replace n with 0 by lia.
  - destruct n as [|n].
    + simpl. now rewrite substring_whole.
    + simpl in Hn. simpl. rewrite append_cons. f_equal. apply IH. lia.
Qed.

(** [HasSuffix] holds exactly of the strings that end with the suffix. *)
Lemma HasSuffix_true (s suffix : string) :
  HasSuffix s suffix = true <-> exists base, s = base +:+ suffix.
Proof.
  unfold HasSuffix. split.
  - intros [Hle Heq]%andb_prop.
    apply Nat.leb_le in Hle. apply String.eqb_eq in Heq.
    exists (substring 0 (String.length s - String.length suffix) s).
    pose proof (substring_split s (String.length s - String.length suffix)
                  ltac:(lia)) as Hsplit.
    replace (String.length s - (String.length s - String.length suffix))
      with (String.length suffix) in Hsplit by lia.
    now rewrite Heq in Hsplit.
  - intros [base ->]. rewrite length_append.
    replace (String.length base + String.length suffix - String.length suffix)
      with (String.length base) by lia.
    rewrite substring_append_right, String.eqb_refl.
    now replace (String.length suffix <=? String.length base + String.length suffix)%nat
      with true by (symmetry; apply Nat.leb_le; lia).
Qed.

(** A string that does not end with the suffix is left as it is. *)
Lemma TrimSuffix_other (s suffix : string) :
  (forall base, s <> base +:+ suffix) -> TrimSuffix s suffix = s.
Proof.
  intros Hno. unfold TrimSuffix.
  destruct (HasSuffix s suffix) eqn:E; [| reflexivity].
  apply HasSuffix_true in E as [base ->]. now destruct (Hno base).
Qed.

(** A name without the suffix is left as it is. *)
Lemma TrimSuffix_none (s suffix : string) :
  HasSuffix s suffix = false -> TrimSuffix s suffix = s.
Proof. unfold TrimSuffix. now intros ->. Qed.

(* ------------------------------------------------------------------ *)
(** ** Facts about the error sink *)

Lemma Errors_lookup_Add (field validator msg : string) (es : ErrorsMap)
    (field' validator' : string) :
  Errors_lookup (Errors_Add field validator msg es) field' validator' =
  if decide (field' = field /\ validator' = validator) then Some msg
  else Errors_lookup es field' validator'.
Proof.
  unfold Errors_lookup, Errors_Add.
  destruct (decide (field' = field)) as [-> | Hf].
  - destruct (es !! field) as [ms|] eqn:E; rewrite lookup_insert_eq.
    + destruct (decide (validator' = validator)) as [-> | Hv].
      * rewrite lookup_insert_eq. now rewrite decide_True.
      * rewrite lookup_insert_ne by congruence.
        rewrite decide_False by (intros [_ ?]; congruence). reflexivity.
    + destruct (decide (validator' = validator)) as [-> | Hv].
      * rewrite lookup_singleton_eq. now rewrite decide_True.
      * rewrite lookup_singleton_ne by congruence.
        rewrite decide_False by (intros [_ ?]; congruence). reflexivity.
  - rewrite decide_False by (intros [? _]; congruence).
    destruct (es !! field) as [ms|] eqn:E; now rewrite lookup_insert_ne by congruence.
Qed.

Lemma Errors_lookup_empty (field validator : string) :
  Errors_lookup ∅ field validator = None.
Proof. unfold Errors_lookup. now rewrite lookup_empty. Qed.

(** [Add] never removes an entry. *)
Lemma Errors_Add_keeps (field validator msg : string) (es : ErrorsMap)
    (field' validator' : string) :
  is_Some (Errors_lookup es field' validator') ->
  is_Some (Errors_lookup (Errors_Add field validator msg es) field' validator').
Proof.
  intros Hs. rewrite Errors_lookup_Add.
  destruct (decide _); [eauto | exact Hs].
Qed.

(* ------------------------------------------------------------------ *)
(** ** Facts about the session *)

Section SessionFacts.
Context {D : Type} `{DataFace D}.
Variable Apply : FilterRule -> Validation D -> Validation D * option error.
Variable globalValidatorMetas : gmap string funcMeta.
Variable ErrEmptyData : error.
Variable checkValidatorFunc : string -> any -> M reflect_Value.
Implicit Type v : Validation D.

(** C1 (as amended).  [ResetResult] clears the run-state (Errors, hasError,
    hasFiltered, hasValidated, safeData, filteredData) and leaves the rules
    and the filter rules as they are; [Reset] clears the same run-state and
    also truncates both rule lists to length zero.  Both keep the data
    source and the session's validators. *)
Theorem Reset_clears_results_and_rules v :
  (runStateCleared (ResetResult v) /\
   rules (ResetResult v) = rules v /\
   filterRules (ResetResult v) = filterRules v) /\
  (runStateCleared (Reset v) /\
   elems (rules (Reset v)) = [] /\
   elems (filterRules (Reset v)) = []) /\
  (data (Reset v) = data v /\
   validators (Reset v) = validators v /\
   validatorMetas (Reset v) = validatorMetas v /\
   data (ResetResult v) = data v /\
   validators (ResetResult v) = validators v /\
   validatorMetas (ResetResult v) = validatorMetas v).
Proof.
  unfold runStateCleared, Reset, resetRules, ResetResult, elems, reslice0.
  simpl. repeat split; reflexivity.
Qed.

Lemma defaultFallback_holds v key : defaultFallback v key.
Proof.
  intros val found zero Hget. unfold GetWithDefault. rewrite Hget. simpl.
  repeat split.
  - now intros -> ->.
  - intros Hz defVal Hd. rewrite Hd.
    destruct Hz as [-> | ->]; [| destruct found]; reflexivity.
  - intros Hz Hd. rewrite Hd.
    destruct Hz as [-> | ->]; [| destruct found]; reflexivity.
Qed.

(** C5 (as amended).  When the data source is not nil, value resolution
    follows the chain filteredData, then safeData, then [TryGet] on the data
    source, returning the first hit (with [zero = false] for the first two),
    and [GetWithDefault] falls back to the registered default whenever the
    chain reports the value absent or zero-valued. *)
Theorem tryGet_chain_with_source v (d : D) (key : string) :
  data v = Some d -> followsChain v key /\ defaultFallback v key.
Proof.
  intros Hd. split; [| apply defaultFallback_holds].
  unfold followsChain, tryGet. rewrite Hd. simpl.
  repeat split.
  - now intros x ->.
  - now intros x -> ->.
  - intros d' -> -> [= <-]. reflexivity.
Qed.

(** C8 (as amended).  On a session that has a data source: when the source
    is not struct-backed, [updateValue] returns the value unchanged with no
    error and leaves the session, its data source included, as it is ([Set]
    is not called); when it is struct-backed, [updateValue] returns what
    [Set] returns for the field name without one trailing [.*], the session
    holds the record [Set] wrote, so that [Raw] reads from it, and every
    other field of the session is as before.  The name passed to [Set] is
    the base of a name [base.*] and the name itself when it does not end
    with [.*]. *)
Theorem updateValue_write_back v (d : D) (field : string) (val : any) :
  data v = Some d ->
  (data_Type d <> sourceStruct ->
     updateValue field val v = Ok (v, (val, None))) /\
  (data_Type d = sourceStruct ->
     exists v',
       updateValue field val v =
         Ok (v', (data_Set d (TrimSuffix field ".*") val).2) /\
       data v' = Some (data_Set d (TrimSuffix field ".*") val).1 /\
       sameExceptData v v' /\
       (forall key,
          Raw key v' =
            Ok (data_Get (data_Set d (TrimSuffix field ".*") val).1 key))) /\
  (forall base, TrimSuffix (base +:+ ".*") ".*" = base) /\
  ((forall base, field <> base +:+ ".*") -> TrimSuffix field ".*" = field).
Proof.
  intros Hd. unfold updateValue. rewrite Hd. simpl.
  split; [| split; [| split]].
  - intros Hne. now rewrite decide_False.
  - intros He. rewrite decide_True by exact He.
    destruct (data_Set d (TrimSuffix field ".*") val) as [d' r]. simpl.
    eexists. split; [reflexivity |]. split; [reflexivity |].
    split; [unfold sameExceptData; simpl; repeat split; reflexivity |].
    intros key. reflexivity.
  - intros base. apply TrimSuffix_append.
  - apply TrimSuffix_other.
Qed.

(** C10.  On a session whose data source is nil, [Raw] and [Get] return
    [(nil, false)], [Safe] reports every key absent, whatever safeData
    holds, and [Set] returns [ErrEmptyData]; each of them returns, none
    panics. *)
Theorem nil_data_source_is_guarded v (key field : string) (val : any) :
  data v = None ->
  Raw key v = Ok (anil, false) /\
  Get key v = Ok (anil, false) /\
  Safe key v = (anil, false) /\
  Set' ErrEmptyData field val v = Ok (v, Some ErrEmptyData).
Proof.
  intros Hd. unfold Raw, Get, tryGet, Safe, Set'. rewrite Hd. simpl.
  repeat split.
Qed.

(** *** The error sink *)

Lemma AddError_hasError v field validator msg :
  hasError (AddError field validator msg v) = true.
Proof. unfold AddError. now destruct (hasError v) eqn:E. Qed.

Lemma AddError_Errors v field validator msg :
  Errors (AddError field validator msg v) =
  Errors_Add (FieldName (trans v) field) validator msg (Errors v).
Proof. unfold AddError. now destruct (hasError v). Qed.

Lemma AddError_trans v field validator msg :
  trans (AddError field validator msg v) = trans v.
Proof. unfold AddError. now destruct (hasError v). Qed.

(** *** The filtering phase *)

(** A call of [Filtering] that returns leaves the run-once flag set and
    reports the session's success state. *)
Lemma Filtering_returns v v' (ok : bool) :
  Filtering Apply v = Ok (v', ok) ->
  hasFiltered v' = true /\ ok = IsSuccess v'.
Proof.
  unfold Filtering. destruct (hasFiltered v) eqn:Hf.
  - intros [= <- <-]. now split.
  - destruct (filterLoop Apply (elems (filterRules v)) v) as [r|]; simpl;
      [| discriminate].
    intros [= <- <-]. now split.
Qed.

(** Once the flag is set, [Filtering] returns the cached state at once. *)
Lemma Filtering_cached v :
  hasFiltered v = true ->
  Filtering Apply v = Ok (v, IsSuccess v) /\ Filtering_applied Apply v = [].
Proof. intros Hf. unfold Filtering, Filtering_applied. now rewrite Hf. Qed.

(** C4.  [Filtering] is idempotent: after a call that returned, a second
    call with no reset in between returns the same success value, leaves
    the session (its Errors included) exactly as the first call left it, and
    applies no filter rule. *)
Theorem Filtering_idempotent v v' (ok : bool) :
  Filtering Apply v = Ok (v', ok) ->
  Filtering Apply v' = Ok (v', ok) /\ Filtering_applied Apply v' = [].
Proof.
  intros Hrun. destruct (Filtering_returns _ _ _ Hrun) as [Hf ->].
  now apply Filtering_cached.
Qed.

(** The loop over a rule list whose first failing rule is [r]: the rules
    before it and [r] itself are applied, one error is added, and the rules
    after it are not looked at. *)
Lemma filterLoop_first_error pre r post v v1 v2 (e : error) (f : string) fs :
  AppliesOk Apply pre v v1 ->
  Apply r v1 = (v2, Some e) ->
  fields r = f :: fs ->
  filterLoop Apply (pre ++ r :: post)%list v =
    Ok (AddError filterError filterError (f +:+ ": " +:+ Error e) v2,
        (pre ++ [r])%list).
Proof.
  intros Hpre Hr Hfs. induction Hpre as [v | rule rest v va vb Hrule _ IH].
  - simpl. now rewrite Hr, Hfs.
  - simpl. rewrite Hrule, (IH Hr). reflexivity.
Qed.

(** *** Resolving a validator *)

(** C6.  [validatorMeta] resolves a name in the session's own table first,
    then in the global table, then, only on a struct-backed data source, by
    a method lookup on the struct; the first hit wins.  A method found on
    the struct is stored in the session's table as a custom validator, so
    that resolving the name again finds it there and changes nothing more.
    A validator the session registered with [AddValidator] is the one
    resolved, whatever the global table holds under that name. *)
Theorem validatorMeta_resolution_order v (name : string) :
  (forall fm, validatorMetas v !! name = Some fm ->
     validatorMeta globalValidatorMetas name v = Ok (v, Some fm)) /\
  (forall fm, validatorMetas v !! name = None ->
     globalValidatorMetas !! name = Some fm ->
     validatorMeta globalValidatorMetas name v = Ok (v, Some fm)) /\
  (forall d, validatorMetas v !! name = None ->
     globalValidatorMetas !! name = None ->
     data v = Some d ->
     (data_Type d <> sourceStruct ->
        validatorMeta globalValidatorMetas name v = Ok (v, None)) /\
     (data_Type d = sourceStruct -> data_isStructData d = true ->
        forall fv, data_FuncValue d name = (fv, false) ->
        validatorMeta globalValidatorMetas name v = Ok (v, None)) /\
     (data_Type d = sourceStruct -> data_isStructData d = true ->
        forall fv, data_FuncValue d name = (fv, true) ->
        exists v',
          validatorMeta globalValidatorMetas name v =
            Ok (v', Some (newFuncMeta name false fv)) /\
          validatorMetas v' = <[name := newFuncMeta name false fv]> (validatorMetas v) /\
          validators v' = <[name := validatorTypeCustom]> (validators v) /\
          validatorMeta globalValidatorMetas name v' =
            Ok (v', Some (newFuncMeta name false fv)))) /\
  (forall checkFunc v1,
     AddValidator checkValidatorFunc name checkFunc v = Ok v1 ->
     exists fv, checkValidatorFunc name checkFunc = Ok fv /\
       validatorMeta globalValidatorMetas name v1 =
         Ok (v1, Some (newFuncMeta name false fv))).
Proof.
  split; [| split; [| split]].
  - intros fm Hl. unfold validatorMeta. now rewrite Hl.
  - intros fm Hl Hg. unfold validatorMeta. now rewrite Hl, Hg.
  - intros d Hl Hg Hd. split; [| split].
    + intros Hne. unfold validatorMeta.
      rewrite Hl, Hg, Hd. simpl. now rewrite decide_False.
    + intros He Hs fv Hfv. unfold validatorMeta.
      rewrite Hl, Hg, Hd. simpl. rewrite decide_True by exact He.
      rewrite Hs. simpl. now rewrite Hfv.
    + intros He Hs fv Hfv. eexists. split; [| split; [| split]].
      * unfold validatorMeta.
        rewrite Hl, Hg, Hd. simpl. rewrite decide_True by exact He.
        rewrite Hs. simpl. rewrite Hfv. reflexivity.
      * reflexivity.
      * reflexivity.
      * unfold validatorMeta at 1. simpl. now rewrite lookup_insert_eq.
  - intros checkFunc v1. unfold AddValidator.
    destruct (checkValidatorFunc name checkFunc) as [fv|]; simpl; [| discriminate].
    intros [= <-]. exists fv. split; [reflexivity |].
    unfold validatorMeta. simpl. now rewrite lookup_insert_eq.
Qed.

(** *** Filter rules that leave the error sink alone *)

Section ApplyFrame.

(** [FilterRule.Apply] transforms values: it reports a failure through its
    result and does not touch the fail flag or the Errors of the session
    (spec 4.4: it writes filteredData and, on a source with write-back, the
    data source). *)
Hypothesis Apply_frame : forall r v,
  hasError (Apply r v).1 = hasError v /\ Errors (Apply r v).1 = Errors v.

Lemma AppliesOk_frame rs v v' :
  AppliesOk Apply rs v v' -> hasError v' = hasError v /\ Errors v' = Errors v.
Proof.
  induction 1 as [v | rule rest v va vb Hrule _ [IHh IHe]]; [now split |].
  destruct (Apply_frame rule v) as [Hh He]. rewrite Hrule in Hh, He. simpl in *.
  split; congruence.
Qed.

(** C3.  When the rules before [r] apply without error and [r] reports the
    error [e], [Filtering] applies exactly those rules and [r], none of the
    rules after [r], and records exactly one entry: the message under the
    display name of the filter error class and the validator [_filter];
    every other entry of Errors is as before the call.  The session [v] is
    arbitrary, so this holds for both values of [StopOnError]. *)
Theorem Filtering_stops_at_first_error v pre r post v1 v2 (e : error) (f : string) fs :
  hasFiltered v = false ->
  elems (filterRules v) = (pre ++ r :: post)%list ->
  AppliesOk Apply pre v v1 ->
  Apply r v1 = (v2, Some e) ->
  fields r = f :: fs ->
  exists v',
    Filtering Apply v = Ok (v', false) /\
    v' = set_hasFiltered true
           (AddError filterError filterError (f +:+ ": " +:+ Error e) v2) /\
    Filtering_applied Apply v = (pre ++ [r])%list /\
    (forall field validator,
       Errors_lookup (Errors v') field validator =
       if decide (field = FieldName (trans v2) filterError /\ validator = filterError)
       then Some (f +:+ ": " +:+ Error e)
       else Errors_lookup (Errors v) field validator).
Proof.
  intros Hf Hrules Hpre Hr Hfs.
  pose proof (filterLoop_first_error pre r post v v1 v2 e f fs Hpre Hr Hfs) as Hloop.
  eexists. split; [| split; [reflexivity | split]].
  - unfold Filtering. rewrite Hf, Hrules, Hloop. simpl.
    unfold IsSuccess. simpl.
    destruct (hasError v2) eqn:E; simpl; rewrite ?E; reflexivity.
  - unfold Filtering_applied. now rewrite Hf, Hrules, Hloop.
  - intros field validator.
    change (Errors (set_hasFiltered true ?x)) with (Errors x).
    rewrite AddError_Errors, Errors_lookup_Add.
    destruct (AppliesOk_frame _ _ _ Hpre) as [_ He1].
    destruct (Apply_frame r v1) as [_ He2]. rewrite Hr in He2. simpl in He2.
    now rewrite He2, He1.
Qed.

Lemma keepsErrors_same v v' :
  hasError v' = hasError v -> Errors v' = Errors v -> keepsErrors v v'.
Proof. intros Hh He. unfold keepsErrors. rewrite Hh, He. now split. Qed.

Lemma keepsErrors_trans v1 v2 v3 :
  keepsErrors v1 v2 -> keepsErrors v2 v3 -> keepsErrors v1 v3.
Proof. intros [A1 B1] [A2 B2]. split; eauto. Qed.

Lemma keepsErrors_AddError v field validator msg :
  keepsErrors v (AddError field validator msg v).
Proof.
  split.
  - intros _. apply AddError_hasError.
  - intros f val Hs. rewrite AddError_Errors. now apply Errors_Add_keeps.
Qed.

Lemma keepsErrors_filterLoop rs : forall v r,
  filterLoop Apply rs v = Ok r -> keepsErrors v r.1.
Proof.
  induction rs as [|rule rest IH]; intros v r; simpl.
  - intros [= <-]. now apply keepsErrors_same.
  - destruct (Apply_frame rule v) as [Hh He].
    destruct (Apply rule v) as [va [e|]]; simpl in *.
    + destruct (index0 (fields rule)) as [f0|]; simpl; [| discriminate].
      intros [= <-]. simpl.
      apply (keepsErrors_trans _ va); [now apply keepsErrors_same |].
      apply keepsErrors_AddError.
    + destruct (filterLoop Apply rest va) as [r'|] eqn:E; simpl; [| discriminate].
      intros [= <-]. simpl.
      apply (keepsErrors_trans _ va); [now apply keepsErrors_same |].
      now apply IH.
Qed.

(** No call other than the two resets clears the fail flag or drops an
    entry. *)
Lemma keepsErrors_exec c v v' :
  isReset c = false ->
  exec Apply globalValidatorMetas ErrEmptyData checkValidatorFunc c v = Ok v' ->
  keepsErrors v v'.
Proof.
  destruct c; simpl; try discriminate; intros _.
  - intros [= <-]. apply keepsErrors_AddError.
  - intros [= <-]. destruct err; simpl;
      [apply keepsErrors_AddError | now apply keepsErrors_same].
  - unfold Filtering. destruct (hasFiltered v).
    + simpl. intros [= <-]. now apply keepsErrors_same.
    + destruct (filterLoop Apply (elems (filterRules v)) v) as [r|] eqn:E;
        simpl; [| discriminate].
      intros [= <-]. apply keepsErrors_filterLoop in E.
      eapply keepsErrors_trans; [exact E | now apply keepsErrors_same].
  - intros [= <-]. now apply keepsErrors_same.
  - unfold Set'. destruct (data v) as [d|]; simpl.
    + destruct (data_Set d field val) as [d' [x err]]. simpl.
      intros [= <-]. now apply keepsErrors_same.
    + intros [= <-]. now apply keepsErrors_same.
  - unfold updateValue. destruct (data v) as [d|]; simpl; [| discriminate].
    destruct (decide (data_Type d = sourceStruct)).
    + destruct (data_Set d (TrimSuffix field ".*") val) as [d' x]. simpl.
      intros [= <-]. now apply keepsErrors_same.
    + simpl. intros [= <-]. now apply keepsErrors_same.
  - unfold validatorMeta.
    destruct (validatorMetas v !! name);
      [simpl; intros [= <-]; now apply keepsErrors_same |].
    destruct (globalValidatorMetas !! name);
      [simpl; intros [= <-]; now apply keepsErrors_same |].
    destruct (data v) as [d|]; simpl; [| discriminate].
    destruct (decide (data_Type d = sourceStruct));
      [| simpl; intros [= <-]; now apply keepsErrors_same].
    destruct (data_isStructData d); simpl; [| discriminate].
    destruct (data_FuncValue d name) as [fv [|]]; simpl;
      intros [= <-]; now apply keepsErrors_same.
  - unfold AddValidator.
    destruct (checkValidatorFunc name checkFunc); simpl; [| discriminate].
    intros [= <-]. now apply keepsErrors_same.
  - intros [= <-]. now apply keepsErrors_same.
  - intros [= <-]. now apply keepsErrors_same.
  - intros [= <-]. now apply keepsErrors_same.
  - intros [= <-]. now apply keepsErrors_same.
Qed.

Lemma keepsErrors_run cs : forall v v',
  forallb (fun c => negb (isReset c)) cs = true ->
  run Apply globalValidatorMetas ErrEmptyData checkValidatorFunc cs v = Ok v' ->
  keepsErrors v v'.
Proof.
  induction cs as [|c rest IH]; intros v v'; simpl.
  - intros _ [= <-]. now apply keepsErrors_same.
  - intros [Hc Hrest]%andb_prop.
    destruct (exec Apply globalValidatorMetas ErrEmptyData checkValidatorFunc c v)
      as [va|] eqn:E; simpl; [| discriminate].
    intros Hrun. eapply keepsErrors_trans.
    + eapply keepsErrors_exec; [| exact E]. now destruct (isReset c).
    + now apply IH.
Qed.

(** C7.  After [AddError] the fail flag is set ([IsOK] is false, [IsFail] is
    true) and the message is stored under the field's display name.  Through
    any further calls on the session other than [ResetResult] and [Reset]
    the flag stays set and the entry stays present; either reset clears the
    flag and every entry. *)
Theorem AddError_fails_until_reset v (field validator msg : string) :
  (hasError (AddError field validator msg v) = true /\
   IsOK (AddError field validator msg v) = false /\
   IsFail (AddError field validator msg v) = true /\
   Errors_lookup (Errors (AddError field validator msg v))
     (FieldName (trans v) field) validator = Some msg) /\
  (forall cs v',
     forallb (fun c => negb (isReset c)) cs = true ->
     run Apply globalValidatorMetas ErrEmptyData checkValidatorFunc cs
       (AddError field validator msg v) = Ok v' ->
     hasError v' = true /\ IsOK v' = false /\ IsFail v' = true /\
     is_Some (Errors_lookup (Errors v') (FieldName (trans v) field) validator)) /\
  (hasError (ResetResult (AddError field validator msg v)) = false /\
   Errors (ResetResult (AddError field validator msg v)) = ∅ /\
   hasError (Reset (AddError field validator msg v)) = false /\
   Errors (Reset (AddError field validator msg v)) = ∅).
Proof.
  assert (Hstored : Errors_lookup (Errors (AddError field validator msg v))
                      (FieldName (trans v) field) validator = Some msg).
  { rewrite AddError_Errors, Errors_lookup_Add. now rewrite decide_True. }
  split; [| split].
  - unfold IsOK, IsFail. rewrite AddError_hasError. now repeat split.
  - intros cs v' Hcs Hrun.
    destruct (keepsErrors_run cs _ _ Hcs Hrun) as [Hflag Hkeep].
    specialize (Hflag (AddError_hasError _ _ _ _)).
    unfold IsOK, IsFail. rewrite Hflag. repeat split.
    apply Hkeep. rewrite Hstored. eauto.
  - now repeat split.
Qed.

End ApplyFrame.

(** *** The scene selector *)

Lemma ancestorListed_true (sf : gmap string Z) (fs : list string) (n : nat) :
  forall i,
    ancestorListed sf fs n i = true <->
    exists j, i <= j < i + n /\ is_Some (sf !! Join (take j fs) ".").
Proof.
  induction n as [|n IH]; intros i; simpl.
  - split; [discriminate | intros (j & Hj & _); lia].
  - destruct (sf !! Join (take i fs) ".") as [x|] eqn:E.
    + split; [intros _ | reflexivity].
      exists i. split; [lia | rewrite E; eauto].
    + rewrite IH. split; intros (j & Hj & Hs).
      * exists j. split; [lia | exact Hs].
      * exists j. split; [| exact Hs].
        destruct (decide (j = i)) as [-> | Hne]; [| lia].
        rewrite E in Hs. now destruct Hs.
Qed.

(** With no scene fields every field is checked. *)
Lemma isNotNeedToCheck_unrestricted v (field : string) :
  sceneFields v = ∅ -> isNotNeedToCheck field v = false.
Proof. intros He. unfold isNotNeedToCheck. now rewrite He, map_size_empty. Qed.

(** With scene fields, a field is checked exactly when the join of some
    [i < len(fields)] leading segments is listed, the empty join of [i = 0]
    among them, or the field itself is listed. *)
Lemma isNotNeedToCheck_in_scene v (field : string) :
  sceneFields v <> ∅ ->
  isNotNeedToCheck field v = false <->
  (exists j, j < length (Split field ".") /\
     is_Some (sceneFields v !! Join (take j (Split field ".")) ".")) \/
  is_Some (sceneFields v !! field).
Proof.
  intros Hne. unfold isNotNeedToCheck.
  destruct (size (sceneFields v) =? 0)%nat eqn:Hsz.
  { apply Nat.eqb_eq, map_size_empty_iff in Hsz. contradiction. }
  destruct (ancestorListed (sceneFields v) (Split field ".")
              (length (Split field ".")) 0) eqn:Ha.
  - apply ancestorListed_true in Ha as (j & Hj & Hs).
    split; [intros _ | reflexivity]. left. exists j. split; [lia | exact Hs].
  - assert (Hnone : ~ exists j, 0 <= j < 0 + length (Split field ".") /\
               is_Some (sceneFields v !! Join (take j (Split field ".")) ".")).
    { intros Hex. apply ancestorListed_true in Hex. congruence. }
    destruct (sceneFields v !! field) as [x|] eqn:E.
    + split; [intros _ | reflexivity]. right. eauto.
    + split; [discriminate |].
      intros [(j & Hj & Hs) | Hs]; [| now destruct Hs].
      exfalso. apply Hnone. exists j. split; [lia | exact Hs].
Qed.

(** X23.  A scene that lists the empty name admits every field: the loop's
    first iteration looks up the join of zero segments. *)
Lemma isNotNeedToCheck_empty_name v (field : string) :
  is_Some (sceneFields v !! "") -> isNotNeedToCheck field v = false.
Proof.
  intros Hs. apply isNotNeedToCheck_in_scene.
  - intros He. rewrite He, lookup_empty in Hs. now destruct Hs.
  - left. exists 0. split; [| exact Hs].
    apply splitFrom_length.
Qed.

(** When the empty name is not listed, a field is checked exactly when one
    of its dotted ancestors (one up to all but the last of its segments) or
    the field itself is listed. *)
Lemma isNotNeedToCheck_ancestors v (field : string) :
  sceneFields v <> ∅ ->
  sceneFields v !! "" = None ->
  isNotNeedToCheck field v = false <->
  (exists j, 0 < j < length (Split field ".") /\
     is_Some (sceneFields v !! Join (take j (Split field ".")) ".")) \/
  is_Some (sceneFields v !! field).
Proof.
  intros Hne H0. rewrite (isNotNeedToCheck_in_scene v field Hne).
  split; (intros [(j & Hj & Hs) | Hs]; [left | now right]).
  - exists j. split; [| exact Hs].
    destruct j; [| lia]. simpl in Hs. rewrite H0 in Hs. now destruct Hs.
  - exists j. split; [lia | exact Hs].
Qed.

End SessionFacts.

(** C2.  In the scene [update], listed as the names [name] and the empty
    name, the field [email] is neither listed nor has a dotted ancestor, yet
    [isNotNeedToCheck] reports it as a field to check. *)
Theorem isNotNeedToCheck_admits_unlisted_field :
  sceneFields updateSceneRun !! "name" = Some 1%Z /\
  sceneFields updateSceneRun !! "" = Some 1%Z /\
  sceneFields updateSceneRun !! "email" = None /\
  Split "email" "." = ["email"] /\
  isNotNeedToCheck "email" updateSceneRun = false.
Proof. repeat split. Qed.

(** C1 (as stated) fails: after [Reset] the session holds none of the rules
    and filter rules it was given. *)
Lemma Reset_keeps_rules_counterexample :
  ~ (elems (rules (Reset userSession)) = elems (rules userSession) /\
     elems (filterRules (Reset userSession)) = elems (filterRules userSession)).
Proof. intros [Hr _]. discriminate Hr. Qed.

(** C5 (as stated) fails: on a session without a data source the entry of
    filteredData under [age] is not returned. *)
Lemma tryGet_chain_counterexample :
  filteredData nilSession !! "age" = Some (AInt 30) /\
  ~ followsChain nilSession "age".
Proof.
  split; [reflexivity |].
  intros (Hfirst & _). specialize (Hfirst (AInt 30) eq_refl). discriminate Hfirst.
Qed.

(** C8 (as stated) fails: a session without a data source has no
    struct-backed source, yet [updateValue] does not return the value: the
    call of [Type] on the nil data source panics. *)
Lemma updateValue_nil_source_counterexample :
  data nilSession = None /\
  updateValue "name" (AString "al") nilSession = Panic /\
  ~ (updateValue "name" (AString "al") nilSession =
       Ok (nilSession, (AString "al", None))).
Proof. split; [reflexivity |]. split; [reflexivity | discriminate]. Qed.

(* ------------------------------------------------------------------ *)
(** ** Facts about the JSON input adapter *)

Section AdapterFacts.
Import Jsonutil.
Variable ParseMediaType : string -> option string.
Variable Decode : list Byte.byte -> option Jsonutil.error.
Variable More : list Byte.byte -> bool.

(** Without any input, or with both a request and bytes, the status is
    415. *)
Lemma Unmarshal_no_or_dual_input (r : Request) (data : list Byte.byte) :
  (Unmarshal ParseMediaType Decode More None None).1 = 415%Z /\
  (Unmarshal ParseMediaType Decode More (Some r) (Some data)).1 = 415%Z.
Proof. now split. Qed.

(** X22.  A request whose body cannot be read is answered 400 with the
    text [error reading request body], before its content type or the
    decoder is looked at. *)
Lemma Unmarshal_read_error (r : Request) (bytes : list Byte.byte) (e : Jsonutil.error) :
  Body r = (bytes, Some e) ->
  Unmarshal ParseMediaType Decode More (Some r) None =
    (400%Z, Some (Errorf "error reading request body")).
Proof. intros Hb. unfold Unmarshal. now rewrite Hb. Qed.

(** A readable request with another content type is answered 415; with the
    JSON content type its body is decoded; bytes are decoded as they are. *)
Lemma Unmarshal_content_type (r : Request) (bytes : list Byte.byte) :
  Body r = (bytes, None) ->
  (HasContentType ParseMediaType r "application/json" = false ->
     (Unmarshal ParseMediaType Decode More (Some r) None).1 = 415%Z) /\
  (HasContentType ParseMediaType r "application/json" = true ->
     Unmarshal ParseMediaType Decode More (Some r) None = decodeBody Decode More bytes) /\
  (forall data,
     Unmarshal ParseMediaType Decode More None (Some data) = decodeBody Decode More data).
Proof.
  intros Hb. unfold Unmarshal. rewrite Hb.
  repeat split; now intros ->.
Qed.

(** The statuses of the decoding half: 400 for a syntax error (with its
    offset), an unexpected end, a type mismatch (field and offset), an
    unknown field, an empty body and trailing input; 413 when the decoder's
    error reads [http: request body too large]; 500 for any other error;
    200 otherwise. *)
Lemma decodeBody_status (input : list Byte.byte) :
  (forall err offset, Decode input = Some err -> asSyntaxError err = Some offset ->
     decodeBody Decode More input =
       (400%Z, Some (Errorf ("malformed json at position " +:+ pretty offset)))) /\
  (forall err, Decode input = Some err -> asSyntaxError err = None ->
     isUnexpectedEOF err = true ->
     decodeBody Decode More input = (400%Z, Some (Errorf "malformed json"))) /\
  (forall err field offset, Decode input = Some err -> asSyntaxError err = None ->
     isUnexpectedEOF err = false -> asUnmarshalTypeError err = Some (field, offset) ->
     decodeBody Decode More input =
       (400%Z, Some (Errorf ("invalid value " +:+ field +:+ " at position "
                               +:+ pretty offset)))) /\
  (forall err, Decode input = Some err ->
     HasPrefix (Error err) "json: unknown field" = true \/ isEOF err = true ->
     (decodeBody Decode More input).1 = 400%Z) /\
  (forall err, Decode input = Some err -> asSyntaxError err = None ->
     isUnexpectedEOF err = false -> asUnmarshalTypeError err = None ->
     HasPrefix (Error err) "json: unknown field" = false -> isEOF err = false ->
     (Error err = "http: request body too large" ->
        decodeBody Decode More input = (413%Z, Some err)) /\
     (Error err <> "http: request body too large" ->
        (decodeBody Decode More input).1 = 500%Z)) /\
  (Decode input = None ->
     (decodeBody Decode More input).1 = if More input then 400%Z else 200%Z).
Proof.
  unfold decodeBody. split; [| split; [| split; [| split; [| split]]]].
  - intros err offset -> ->. reflexivity.
  - intros err -> -> ->. reflexivity.
  - intros err field offset -> -> -> ->. reflexivity.
  - intros err -> Hcase.
    destruct (asSyntaxError err); [reflexivity |].
    destruct (isUnexpectedEOF err); [reflexivity |].
    destruct (asUnmarshalTypeError err) as [[field offset]|]; [reflexivity |].
    destruct (HasPrefix (Error err) "json: unknown field"); [reflexivity |].
    destruct Hcase as [Hp | ->]; [discriminate | reflexivity].
  - intros err -> -> -> -> -> ->. split.
    + intros ->. reflexivity.
    + intros Hne.
      destruct (String.eqb_spec (Error err) "http: request body too large");
        [contradiction | reflexivity].
  - intros ->. now destruct (More input).
Qed.

(** C9.  A JSON request whose body exceeds the size limit fails while its
    body is read, and [Unmarshal] answers it with status 400 and the text
    [error reading request body], whatever the decoder would do. *)
Theorem Unmarshal_oversized_request :
  Body oversizedRequest = ([], Some errBodyTooLarge) /\
  Error errBodyTooLarge = "http: request body too large" /\
  Unmarshal ParseMediaType Decode More (Some oversizedRequest) None =
    (StatusBadRequest, Some (Errorf "error reading request body")).
Proof. repeat split. Qed.

End AdapterFacts.

(* ------------------------------------------------------------------ *)
(** ** The theorems at concrete sessions *)

Lemma sampleApply_frame {D : Type} (r : FilterRule) (v : Validation D) :
  hasError (sampleApply r v).1 = hasError v /\
  Errors (sampleApply r v).1 = Errors v.
Proof.
  unfold sampleApply. destruct (existsb (String.eqb "fail") (filters r)); now split.
Qed.

(** C3 on [userSession]: [trim] applies, [fail] reports an error, [lower]
    is not applied, with [StopOnError] unset. *)
Lemma Filtering_stops_at_first_error_witness :
  hasFiltered userSession = false /\
  StopOnError userSession = false /\
  elems (filterRules userSession) = ([trimName] ++ failAge :: [lowerEmail])%list /\
  fields failAge = "age" :: [] /\
  Filtering_applied sampleApply userSession = [trimName; failAge] /\
  exists v',
    Filtering sampleApply userSession = Ok (v', false) /\
    Errors_lookup (Errors v') "_filter" "_filter" = Some "age: cannot convert" /\
    Errors_lookup (Errors v') "age" "_filter" = None.
Proof.
  assert (Hpre : AppliesOk sampleApply [trimName] userSession
                   (sampleApply trimName userSession).1).
  { econstructor; [reflexivity | constructor]. }
  destruct (Filtering_stops_at_first_error sampleApply sampleApply_frame
              userSession [trimName] failAge [lowerEmail]
              (sampleApply trimName userSession).1
              (sampleApply trimName userSession).1
              (errorOf "cannot convert") "age" []
              eq_refl eq_refl Hpre eq_refl eq_refl)
    as (v' & Hrun & _ & Happlied & Herrors).
  split; [reflexivity |]. split; [reflexivity |]. split; [reflexivity |].
  split; [reflexivity |]. split; [exact Happlied |].
  exists v'. split; [exact Hrun |]. split.
  - rewrite Herrors. reflexivity.
  - rewrite Herrors. reflexivity.
Defined.

(** C4 on [userSession]. *)
Lemma Filtering_idempotent_witness :
  exists v' ok,
    Filtering sampleApply userSession = Ok (v', ok) /\
    Filtering sampleApply v' = Ok (v', ok) /\
    Filtering_applied sampleApply v' = [].
Proof.
  eexists. eexists. split; [reflexivity |].
  apply (Filtering_idempotent sampleApply userSession). reflexivity.
Defined.

(** C5 on [structSession]: [age] is present but zero, so the default is
    returned. *)
Lemma tryGet_chain_with_source_witness :
  data structSession = Some userStruct /\
  (followsChain structSession "age" /\ defaultFallback structSession "age") /\
  GetWithDefault "age" structSession = Ok (AInt 18, true, true).
Proof.
  pose proof (tryGet_chain_with_source structSession userStruct "age" eq_refl)
    as Hchain.
  split; [reflexivity |]. split; [exact Hchain |].
  destruct Hchain as [_ Hdefault].
  destruct (Hdefault (AInt 0) true true eq_refl) as (_ & Hzero & _).
  apply Hzero; [now right | reflexivity].
Defined.

(** C6 on [structSession]: [checkAge] is a method of the struct. *)
Lemma validatorMeta_resolution_order_witness :
  validatorMetas structSession !! "checkAge" = None /\
  data structSession = Some userStruct /\
  data_FuncValue userStruct "checkAge" = (ValueOf (AFunc "User.checkAge"), true) /\
  exists v',
    validatorMeta ∅ "checkAge" structSession =
      Ok (v', Some (newFuncMeta "checkAge" false (ValueOf (AFunc "User.checkAge")))) /\
    validatorMeta ∅ "checkAge" v' =
      Ok (v', Some (newFuncMeta "checkAge" false (ValueOf (AFunc "User.checkAge")))).
Proof.
  repeat split.
  destruct (validatorMeta_resolution_order ∅ sampleCheckFunc structSession "checkAge")
    as (_ & _ & Hstruct & _).
  destruct (Hstruct userStruct eq_refl eq_refl eq_refl) as (_ & _ & Hmethod).
  destruct (Hmethod eq_refl eq_refl (ValueOf (AFunc "User.checkAge")) eq_refl)
    as (v' & Hfirst & _ & _ & Hagain).
  exists v'. split; [exact Hfirst | exact Hagain].
Defined.

(** C7 on [userSession]: an error on [name], then a filtering run, a
    default and a second error. *)
Lemma AddError_fails_until_reset_witness :
  exists v',
    run sampleApply ∅ (errorOf "no data") sampleCheckFunc
      [CallFiltering; CallSetDefValue "age" (AInt 18);
       CallAddError "age" "min" "age is too small"]
      (AddError "name" "required" "name is required" userSession) = Ok v' /\
    hasError v' = true /\ IsOK v' = false /\ IsFail v' = true /\
    is_Some (Errors_lookup (Errors v') "name" "required").
Proof.
  eexists. split; [reflexivity |].
  apply (proj1 (proj2 (AddError_fails_until_reset sampleApply ∅ (errorOf "no data")
                         sampleCheckFunc sampleApply_frame userSession
                         "name" "required" "name is required"))
           [CallFiltering; CallSetDefValue "age" (AInt 18);
            CallAddError "age" "min" "age is too small"]).
  - reflexivity.
  - reflexivity.
Defined.

(** C8 on the map-backed [userSession] and the struct-backed
    [structSession], whose record has the field [age]. *)
Lemma updateValue_write_back_witness :
  data userSession = Some userMap /\
  data structSession = Some userStruct /\
  updateValue "tags.*" (AString "go") userSession =
    Ok (userSession, (AString "go", None)) /\
  (exists v',
     updateValue "age.*" (AInt 30) structSession = Ok (v', (AInt 30, None)) /\
     updateValue "age" (AInt 30) structSession = Ok (v', (AInt 30, None)) /\
     data v' = Some {| Src := <["age" := AInt 30]> (Src userStruct);
                       Methods := Methods userStruct |} /\
     Raw "age" v' = Ok (AInt 30, true) /\
     Raw "name" v' = Ok (AString "bob", true) /\
     defValues v' = defValues structSession) /\
  TrimSuffix "age.*" ".*" = "age" /\
  TrimSuffix "age" ".*" = "age" /\
  TrimSuffix "tags.*.*" ".*" = "tags.*".
Proof.
  split; [reflexivity |]. split; [reflexivity |]. split; [| split].
  - apply (proj1 (updateValue_write_back userSession userMap "tags.*" (AString "go")
                    eq_refl)).
    discriminate.
  - assert (Hstruct : data_Type userStruct = sourceStruct) by reflexivity.
    destruct (proj1 (proj2 (updateValue_write_back structSession userStruct "age.*"
                              (AInt 30) eq_refl)) Hstruct)
      as (v' & Hrun & Hdata & Hsame & Hraw).
    exists v'. split; [exact Hrun |].
    split; [etransitivity; [| exact Hrun]; reflexivity |].
    split; [exact Hdata |].
    split; [rewrite Hraw; reflexivity |].
    split; [rewrite Hraw; reflexivity |].
    apply Hsame.
  - repeat split.
Defined.

(** C10 on [nilSession], whose safeData holds [name]. *)
Lemma nil_data_source_is_guarded_witness :
  data nilSession = None /\
  safeData nilSession !! "name" = Some (AString "bob") /\
  Raw "name" nilSession = Ok (anil, false) /\
  Get "name" nilSession = Ok (anil, false) /\
  Safe "name" nilSession = (anil, false) /\
  Set' (errorOf "no data") "name" (AString "al") nilSession =
    Ok (nilSession, Some (errorOf "no data")).
Proof.
  split; [reflexivity |]. split; [reflexivity |].
  apply (nil_data_source_is_guarded (errorOf "no data") nilSession "name" "name"
           (AString "al")).
  reflexivity.
Defined.

(* ------------------------------------------------------------------ *)
(** ** Further facts: the scene selector *)

Lemma splitFrom_append (sep : ascii) (p rest : string) :
  forall cur,
    splitFrom sep cur (p +:+ String sep rest) =
    (splitFrom sep cur p ++ splitFrom sep "" rest)%list.
Proof.
  induction p as [|c p IH]; intros cur.
  - simpl. now rewrite Ascii.eqb_refl.
  - rewrite append_cons. simpl. destruct (Ascii.eqb c sep).
    + now rewrite IH.
    + apply IH.
Qed.

Lemma foldl_insert_lookup (fs : list string) (x : Z) :
  forall (m : gmap string Z) (f : string),
    foldl (fun m field => <[field := x]> m) m fs !! f =
    if decide (f ∈ fs) then Some x else m !! f.
Proof.
  induction fs as [|g fs IH]; intros m f; cbn [foldl].
  - destruct (decide (f ∈ [])) as [Hin |]; [| reflexivity].
    now apply not_elem_of_nil in Hin.
  - rewrite IH. destruct (decide (f ∈ fs)) as [Hin | Hnin].
    + destruct (decide (f ∈ g :: fs)) as [| Hn]; [reflexivity |].
      exfalso. apply Hn, elem_of_cons. now right.
    + destruct (decide (f = g)) as [-> | Hne].
      * rewrite lookup_insert_eq.
        destruct (decide (g ∈ g :: fs)) as [| Hn]; [reflexivity |].
        exfalso. apply Hn, elem_of_cons. now left.
      * rewrite lookup_insert_ne by congruence.
        destruct (decide (f ∈ g :: fs)) as [Hin |]; [| reflexivity].
        apply elem_of_cons in Hin as [? | ?]; contradiction.
Qed.

Section SceneFacts.
Context {D : Type}.
Implicit Type v : Validation D.

Lemma sceneFieldMap_lookup_fields v (fs : list string) (f : string) :
  scene v <> "" -> scenes v !! scene v = Some fs ->
  sceneFieldMap v !! f = if decide (f ∈ fs) then Some 1%Z else None.
Proof.
  intros Hs Hfs. unfold sceneFieldMap.
  rewrite decide_False by exact Hs. rewrite Hfs.
  rewrite foldl_insert_lookup, lookup_empty. reflexivity.
Qed.

Lemma sceneFieldMap_no_fields v :
  scene v = "" \/ scenes v !! scene v = None \/ scenes v !! scene v = Some [] ->
  sceneFieldMap v = ∅.
Proof.
  unfold sceneFieldMap. intros [Hs | [Hn | He]].
  - now rewrite decide_True.
  - destruct (decide (scene v = "")); [reflexivity | now rewrite Hn].
  - destruct (decide (scene v = "")); [reflexivity | now rewrite He].
Qed.

(** X1.  The map [sceneFieldMap] builds holds exactly the names that
    [SceneFields] lists for a scene with a name, each with the value 1; for
    the scene without a name it is empty, whatever [scenes] holds under the
    empty name. *)
Theorem sceneFieldMap_lists_scene_fields v (f : string) :
  (sceneFieldMap v !! f = Some 1%Z <-> scene v <> "" /\ f ∈ SceneFields v) /\
  (sceneFieldMap v !! f = None <-> scene v = "" \/ f ∉ SceneFields v) /\
  (forall x, sceneFieldMap v !! f = Some x -> x = 1%Z).
Proof.
  unfold SceneFields.
  destruct (decide (scene v = "")) as [Hs | Hs].
  - rewrite (sceneFieldMap_no_fields v) by now left.
    rewrite lookup_empty. intuition discriminate.
  - destruct (scenes v !! scene v) as [fs|] eqn:Hfs.
    + rewrite (sceneFieldMap_lookup_fields v fs f Hs Hfs).
      destruct (decide (f ∈ fs)); intuition (discriminate || congruence).
    + rewrite (sceneFieldMap_no_fields v) by (right; now left).
      rewrite lookup_empty. pose proof (not_elem_of_nil f).
      intuition discriminate.
Qed.

(** X2.  A session whose scene has no name, is not declared in [scenes], or
    is declared with an empty list restricts nothing: once the scene fields
    are built from it, every field is checked. *)
Theorem scene_without_fields_checks_everything v (field : string) :
  scene v = "" \/ scenes v !! scene v = None \/ scenes v !! scene v = Some [] ->
  isNotNeedToCheck field (set_sceneFields (sceneFieldMap v) v) = false.
Proof.
  intros Hcase. apply isNotNeedToCheck_unrestricted. simpl.
  now apply sceneFieldMap_no_fields.
Qed.

(** X3.  In a named scene whose list is not empty and does not hold the
    empty name, a field is checked exactly when the scene lists the field
    itself or one of its dotted ancestors (its first [j] segments joined by
    dots, for some [0 < j < len(segments)]). *)
Theorem scene_selects_listed_fields v (fs : list string) (field : string) :
  scene v <> "" -> scenes v !! scene v = Some fs -> fs <> [] -> "" ∉ fs ->
  isNotNeedToCheck field (set_sceneFields (sceneFieldMap v) v) = false <->
  (exists j, 0 < j < length (Split field ".") /\
     Join (take j (Split field ".")) "." ∈ fs) \/
  field ∈ fs.
Proof.
  intros Hs Hfs Hne Hempty.
  assert (Hlook : forall f, is_Some (sceneFieldMap v !! f) <-> f ∈ fs).
  { intros f. rewrite (sceneFieldMap_lookup_fields v fs f Hs Hfs).
    destruct (decide (f ∈ fs)); split; eauto; try tauto.
    intros [? ?]. discriminate. }
  rewrite isNotNeedToCheck_ancestors; simpl.
  - setoid_rewrite Hlook. reflexivity.
  - destruct fs as [|g fs']; [contradiction |].
    intros He. pose proof (proj2 (Hlook g)) as Hg.
    rewrite He, lookup_empty in Hg.
    destruct Hg as [? ?]; [apply elem_of_cons; now left | discriminate].
  - destruct (sceneFieldMap v !! "") eqn:E; [| reflexivity].
    exfalso. apply Hempty, Hlook. eauto.
Qed.

(** X4.  Listing a name in the scene fields admits every field below it:
    [p.rest] is checked whenever [p] is listed. *)
Theorem listed_ancestor_admits_descendants v (p rest : string) :
  is_Some (sceneFields v !! p) ->
  isNotNeedToCheck (p +:+ "." +:+ rest) v = false.
Proof.
  intros Hp. apply isNotNeedToCheck_in_scene.
  - intros He. rewrite He, lookup_empty in Hp. now destruct Hp.
  - left. exists (length (Split p ".")).
    unfold Split.
    change (p +:+ "." +:+ rest) with (p +:+ String "." rest).
    rewrite splitFrom_append. split.
    + rewrite length_app. pose proof (splitFrom_length "." rest ""). lia.
    + rewrite take_app_length. fold (Split p ".").
      change "."%string with (String "."%char "").
      now rewrite Join_Split.
Qed.

End SceneFacts.

(* ------------------------------------------------------------------ *)
(** ** Further facts: the filtering phase *)

Section FilteringFacts.
Context {D : Type}.
Variable Apply : FilterRule -> Validation D -> Validation D * option error.
Implicit Type v : Validation D.

Lemma filterLoop_all_ok rs v v1 :
  AppliesOk Apply rs v v1 -> filterLoop Apply rs v = Ok (v1, rs).
Proof.
  induction 1 as [v | rule rest v va vb Hrule _ IH]; simpl; [reflexivity |].
  now rewrite Hrule, IH.
Qed.

(** X5.  When every filter rule applies without error, [Filtering] applies
    all of them, in the order of the list, sets the run-once flag on the
    session the last rule left, adds no error of its own, and reports
    whether that session carries an error. *)
Theorem Filtering_applies_all_rules v v1 :
  hasFiltered v = false ->
  AppliesOk Apply (elems (filterRules v)) v v1 ->
  Filtering Apply v = Ok (set_hasFiltered true v1, IsSuccess v1) /\
  Filtering_applied Apply v = elems (filterRules v) /\
  Errors (set_hasFiltered true v1) = Errors v1.
Proof.
  intros Hf Hall. unfold Filtering, Filtering_applied.
  rewrite Hf, (filterLoop_all_ok _ _ _ Hall). repeat split; reflexivity.
Qed.

(** X7.  After [Reset] a session has no filter rule left: [Filtering]
    applies none, reports success and only sets the run-once flag. *)
Theorem Filtering_after_Reset v :
  Filtering Apply (Reset v) = Ok (set_hasFiltered true (Reset v), true) /\
  Filtering_applied Apply (Reset v) = [].
Proof.
  assert (Hf : hasFiltered (Reset v) = false) by reflexivity.
  assert (Hr : elems (filterRules (Reset v)) = []) by reflexivity.
  assert (He : hasError (Reset v) = false) by reflexivity.
  remember (Reset v) as w eqn:Hw. clear Hw.
  unfold Filtering, Filtering_applied, IsSuccess. rewrite Hf, Hr. simpl.
  rewrite He. split; reflexivity.
Qed.

Section FrameFacts.
Hypothesis Apply_frame : forall r v,
  hasError (Apply r v).1 = hasError v /\ Errors (Apply r v).1 = Errors v.

Lemma AppliesOk_keeps rs v v' :
  AppliesOk Apply rs v v' -> hasError v' = hasError v /\ Errors v' = Errors v.
Proof.
  induction 1 as [v | rule rest v va vb Hrule _ [IHh IHe]]; [now split |].
  destruct (Apply_frame rule v) as [Hh He]. rewrite Hrule in Hh, He. simpl in *.
  split; congruence.
Qed.

(** What the loop of [Filtering] can return: all rules applied, or the
    rules up to the first failing one and an error on the session. *)
Lemma filterLoop_returns rs : forall v r,
  filterLoop Apply rs v = Ok r ->
  (AppliesOk Apply rs v r.1 /\ r.2 = rs) \/ hasError r.1 = true.
Proof.
  induction rs as [|rule rest IH]; intros v r; simpl.
  - intros [= <-]. left. split; [constructor | reflexivity].
  - destruct (Apply rule v) as [va [e|]] eqn:Hrule.
    + destruct (index0 (fields rule)) as [f0|]; simpl; [| discriminate].
      intros [= <-]. right. apply AddError_hasError.
    + destruct (filterLoop Apply rest va) as [r'|] eqn:E; simpl; [| discriminate].
      intros [= <-]. simpl. destruct (IH _ _ E) as [[Hall Hlog] | Herr].
      * left. split; [econstructor; eassumption | now rewrite Hlog].
      * now right.
Qed.

(** X8.  A first call of [Filtering] that returns reports success exactly
    when the session carried no error before the call and every filter rule
    applied without error. *)
Theorem Filtering_succeeds_iff v v' (ok : bool) :
  hasFiltered v = false ->
  Filtering Apply v = Ok (v', ok) ->
  ok = true <->
  hasError v = false /\ exists v1, AppliesOk Apply (elems (filterRules v)) v v1.
Proof.
  intros Hf. unfold Filtering. rewrite Hf.
  destruct (filterLoop Apply (elems (filterRules v)) v) as [r|] eqn:E; simpl;
    [| discriminate].
  intros [= <- <-]. unfold IsSuccess. simpl.
  destruct (filterLoop_returns _ _ _ E) as [[Hall _] | Herr].
  - destruct (AppliesOk_keeps _ _ _ Hall) as [Hh _]. rewrite Hh.
    split.
    + intros Hok. split; [now destruct (hasError v) | eauto].
    + now intros [-> _].
  - rewrite Herr. simpl. split; [discriminate |].
    intros [Hh [v1 Hall]].
    rewrite (filterLoop_all_ok _ _ _ Hall) in E. injection E as <-.
    simpl in Herr. destruct (AppliesOk_keeps _ _ _ Hall) as [Hh' _]. congruence.
Qed.

(** X9.  [ResetResult] makes a session ready for another run: whatever it
    held before, when its filter rules apply without error on the reset
    session, [Filtering] applies all of them again and reports success with
    no error entry. *)
Theorem Filtering_reruns_after_ResetResult v v1 :
  AppliesOk Apply (elems (filterRules v)) (ResetResult v) v1 ->
  Filtering Apply (ResetResult v) = Ok (set_hasFiltered true v1, true) /\
  Filtering_applied Apply (ResetResult v) = elems (filterRules v) /\
  Errors (set_hasFiltered true v1) = ∅.
Proof.
  intros Hall. destruct (AppliesOk_keeps _ _ _ Hall) as [Hh He].
  assert (Hf : hasFiltered (ResetResult v) = false) by reflexivity.
  assert (Hr : filterRules (ResetResult v) = filterRules v) by reflexivity.
  assert (Hh0 : hasError (ResetResult v) = false) by reflexivity.
  assert (He0 : Errors (ResetResult v) = ∅) by reflexivity.
  remember (ResetResult v) as w eqn:Hw in *. clear Hw.
  unfold Filtering, Filtering_applied, IsSuccess. rewrite Hf, Hr.
  rewrite (filterLoop_all_ok _ _ _ Hall). simpl.
  rewrite Hh, Hh0, He, He0. repeat split; reflexivity.
Qed.

End FrameFacts.

End FilteringFacts.

(* ------------------------------------------------------------------ *)
(** ** Further facts: the registry and the getters *)

Lemma copyInto_union (m mp : gmap string Z) : copyInto m mp = m ∪ mp.
Proof.
  unfold copyInto.
  apply (map_fold_weak_ind (fun r m' => r = m' ∪ mp)).
  - now rewrite (left_id_L ∅ (∪)).
  - intros i x m' r _ ->. now rewrite insert_union_l.
Qed.

Section RegistryFacts.
Context {D : Type} `{DataFace D}.
Variable globalValidatorMetas : gmap string funcMeta.
Variable checkValidatorFunc : string -> any -> M reflect_Value.
Variable ValidatorName : string -> string.
Variable globalValidators : gmap string Z.
Implicit Type v : Validation D.

(** X10.  [Validators(true)] holds every global and every session-local
    validator name; under a name both tables hold, the session's type wins.
    [Validators(false)] is the session's own table. *)
Theorem Validators_local_shadows_global v (name : string) :
  Validators globalValidators true v !! name =
    match validators v !! name with
    | Some typ => Some typ
    | None => globalValidators !! name
    end /\
  Validators globalValidators false v = validators v.
Proof.
  split; [| reflexivity].
  unfold Validators. rewrite !copyInto_union, !lookup_union, lookup_empty.
  destruct (validators v !! name), (globalValidators !! name); reflexivity.
Qed.

(** X11.  A name [HasValidator] reports is resolved by [validatorMeta]
    (under the name [ValidatorName] gives) to a meta, without any change to
    the session. *)
Theorem HasValidator_is_resolved v (name : string) :
  HasValidator globalValidatorMetas ValidatorName name v = true ->
  exists fm,
    validatorMeta globalValidatorMetas (ValidatorName name) v = Ok (v, Some fm).
Proof.
  unfold HasValidator, validatorMeta.
  destruct (validatorMetas v !! ValidatorName name) as [fm|]; [eauto |].
  destruct (globalValidatorMetas !! ValidatorName name) as [fm|]; [eauto |].
  discriminate.
Qed.

(** X12.  A validator that is a method of the struct is unknown to
    [HasValidator] until [validatorMeta] has resolved it once; from then on
    [HasValidator] reports it and [Validators] lists it as custom. *)
Theorem struct_method_known_after_resolution v (d : D) (name : string)
    (fv : reflect_Value) :
  ValidatorName name = name ->
  validatorMetas v !! name = None ->
  globalValidatorMetas !! name = None ->
  data v = Some d ->
  data_Type d = sourceStruct ->
  data_isStructData d = true ->
  data_FuncValue d name = (fv, true) ->
  HasValidator globalValidatorMetas ValidatorName name v = false /\
  exists v',
    validatorMeta globalValidatorMetas name v =
      Ok (v', Some (newFuncMeta name false fv)) /\
    HasValidator globalValidatorMetas ValidatorName name v' = true /\
    Validators globalValidators true v' !! name = Some validatorTypeCustom.
Proof.
  intros Hn Hl Hg Hd Ht Hs Hfv. split.
  - unfold HasValidator. now rewrite Hn, Hl, Hg.
  - eexists. split; [| split].
    + unfold validatorMeta. rewrite Hl, Hg, Hd. simpl.
      rewrite decide_True by exact Ht. rewrite Hs. simpl. rewrite Hfv.
      reflexivity.
    + unfold HasValidator. rewrite Hn. simpl. now rewrite lookup_insert_eq.
    + unfold Validators. rewrite !copyInto_union, !lookup_union. simpl.
      rewrite lookup_insert_eq, lookup_empty.
      now destruct (globalValidators !! name).
Qed.

(** X13.  [AddValidator] touches the two registry tables under its own name
    only: every other name keeps its entries, and the data source, the
    rules and the run-state are as before. *)
Theorem AddValidator_leaves_the_rest v v1 (name : string) (checkFunc : any) :
  AddValidator checkValidatorFunc name checkFunc v = Ok v1 ->
  (forall other, other <> name ->
     validatorMetas v1 !! other = validatorMetas v !! other /\
     validators v1 !! other = validators v !! other) /\
  validators v1 !! name = Some validatorTypeCustom /\
  data v1 = data v /\ rules v1 = rules v /\ filterRules v1 = filterRules v /\
  Errors v1 = Errors v /\ hasError v1 = hasError v /\
  safeData v1 = safeData v /\ filteredData v1 = filteredData v.
Proof.
  unfold AddValidator.
  destruct (checkValidatorFunc name checkFunc) as [fv|]; simpl; [| discriminate].
  intros [= <-]. simpl. split; [| split; [apply lookup_insert_eq |]].
  - intros other Hne. now rewrite !lookup_insert_ne by congruence.
  - repeat split; reflexivity.
Qed.

Lemma AddValidators_registeredAll (m : gmap string any) v :
  registeredAll checkValidatorFunc m v (AddValidators checkValidatorFunc m v).
Proof.
  unfold AddValidators.
  apply (map_fold_weak_ind (fun r m' => registeredAll checkValidatorFunc m' v r)).
  - simpl. split; [| split].
    + intros name. now rewrite lookup_empty.
    + intros name. now rewrite lookup_empty.
    + intros name f. rewrite lookup_empty. discriminate.
  - intros i x m' r Hi IH. destruct r as [v'|]; simpl in *.
    + destruct IH as (Hmetas & Htypes & Hok). unfold AddValidator.
      destruct (checkValidatorFunc i x) as [fv|] eqn:Hc; simpl.
      * split; [| split].
        -- intros name. destruct (decide (name = i)) as [-> | Hne].
           ++ now rewrite !lookup_insert_eq, Hc.
           ++ rewrite !lookup_insert_ne by congruence. apply Hmetas.
        -- intros name. destruct (decide (name = i)) as [-> | Hne].
           ++ now rewrite !lookup_insert_eq.
           ++ rewrite !lookup_insert_ne by congruence. apply Htypes.
        -- intros name f. destruct (decide (name = i)) as [-> | Hne].
           ++ rewrite lookup_insert_eq. intros [= <-]. eauto.
           ++ rewrite lookup_insert_ne by congruence. apply Hok.
      * exists i, x. split; [apply lookup_insert_eq | exact Hc].
    + destruct IH as (name & f & Hm & Hc). exists name, f. split; [| exact Hc].
      rewrite lookup_insert_ne; [exact Hm | congruence].
Qed.

(** X14.  [AddValidators] panics exactly when [checkValidatorFunc] rejects
    one of the callables; otherwise every name of the map resolves to the
    callable given for it, as a custom validator, and the other names keep
    their entries, whatever order the map is visited in. *)
Theorem AddValidators_registers_every_entry (m : gmap string any) v :
  (AddValidators checkValidatorFunc m v = Panic <->
   exists name f, m !! name = Some f /\ checkValidatorFunc name f = Panic) /\
  (forall v' name f fv,
     AddValidators checkValidatorFunc m v = Ok v' ->
     m !! name = Some f -> checkValidatorFunc name f = Ok fv ->
     validatorMeta globalValidatorMetas name v' =
       Ok (v', Some (newFuncMeta name false fv)) /\
     validators v' !! name = Some validatorTypeCustom) /\
  (forall v' name,
     AddValidators checkValidatorFunc m v = Ok v' -> m !! name = None ->
     validatorMetas v' !! name = validatorMetas v !! name /\
     validators v' !! name = validators v !! name).
Proof.
  pose proof (AddValidators_registeredAll m v) as Hall.
  destruct (AddValidators checkValidatorFunc m v) as [w|]; simpl in Hall.
  - destruct Hall as (Hmetas & Htypes & Hok). split; [| split].
    + split; [discriminate |]. intros (name & f & Hm & Hc).
      destruct (Hok name f Hm) as [fv Hfv]. congruence.
    + intros v' name f fv [= <-] Hm Hc. split.
      * unfold validatorMeta. now rewrite Hmetas, Hm, Hc.
      * now rewrite Htypes, Hm.
    + intros v' name [= <-] Hm. now rewrite Hmetas, Htypes, Hm.
  - split; [| split]; [| discriminate | discriminate].
    split; [intros _; exact Hall | reflexivity].
Qed.

(** X15.  A default set with [SetDefValue] is what [GetDefValue] returns,
    and [GetWithDefault] returns it exactly when the lookup chain reports
    the value absent or zero; a value that is present and not zero wins
    over the default.  Other keys are resolved as before. *)
Theorem SetDefValue_sets_the_fallback v (key : string) (d val : any)
    (found zero : bool) :
  tryGet key v = Ok (val, found, zero) ->
  GetDefValue key (SetDefValue key d v) = (d, true) /\
  GetWithDefault key (SetDefValue key d v) =
    Ok (if found && negb zero then (val, found, false) else (d, found, true)) /\
  (forall other, other <> key ->
     GetWithDefault other (SetDefValue key d v) = GetWithDefault other v).
Proof.
  intros Hget.
  assert (Hsame : forall k, tryGet k (SetDefValue key d v) = tryGet k v)
    by reflexivity.
  split; [| split].
  - unfold GetDefValue. simpl. now rewrite lookup_insert_eq.
  - unfold GetWithDefault. rewrite Hsame, Hget. simpl.
    destruct (found && negb zero); [reflexivity |].
    now rewrite lookup_insert_eq.
  - intros other Hne. unfold GetWithDefault. rewrite Hsame.
    destruct (tryGet other v) as [[[x fd] z]|]; simpl; [| reflexivity].
    destruct (fd && negb z); [reflexivity |].
    now rewrite lookup_insert_ne by congruence.
Qed.

(** X16.  A key [Safe] finds is a key [Get] finds: with the same value,
    unless filteredData holds the key too, whose value [Get] prefers. *)
Theorem Safe_hit_is_a_Get_hit v (key : string) (x : any) :
  Safe key v = (x, true) ->
  exists y, Get key v = Ok (y, true) /\
    (filteredData v !! key = None -> y = x) /\
    (forall z, filteredData v !! key = Some z -> y = z).
Proof.
  unfold Safe, Get, tryGet.
  destruct (data v) as [d|]; simpl; [| discriminate].
  destruct (safeData v !! key) as [s|] eqn:Hs; [| discriminate].
  intros [= ->].
  destruct (filteredData v !! key) as [z|]; simpl.
  - exists z. split; [reflexivity |]. split; [discriminate | now intros ? [= ->]].
  - exists x. split; [reflexivity |]. split; [reflexivity | discriminate].
Qed.

End RegistryFacts.

(* ------------------------------------------------------------------ *)
(** ** Further facts: the JSON input adapter *)

Lemma prefix_append (pre s : string) : String.prefix pre (pre +:+ s) = true.
Proof.
  induction pre as [|c pre IH]; [now destruct s |].
  rewrite append_cons. simpl. now destruct (ascii_dec c c).
Qed.

(** A leading prefix is removed. *)
Lemma TrimPrefix_append (pre s : string) : TrimPrefix (pre +:+ s) pre = s.
Proof.
  unfold TrimPrefix, HasPrefix. rewrite prefix_append, length_append.
  replace (String.length pre + String.length s - String.length pre)
    with (String.length s) by lia.
  apply substring_append_right.
Qed.

Section AdapterMoreFacts.
Import Jsonutil.
Variable ParseMediaType : string -> option string.
Variable Decode : list Byte.byte -> option Jsonutil.error.
Variable More : list Byte.byte -> bool.

Lemma decodeBody_ok_iff (input : list Byte.byte) :
  decodeBody Decode More input = (StatusOK, None) <->
  Decode input = None /\ More input = false.
Proof.
  unfold decodeBody. destruct (Decode input) as [err|].
  - split; [| intros [? _]; discriminate].
    destruct (asSyntaxError err); [discriminate |].
    destruct (isUnexpectedEOF err); [discriminate |].
    destruct (asUnmarshalTypeError err) as [[field offset]|]; [discriminate |].
    destruct (HasPrefix (Error err) "json: unknown field"); [discriminate |].
    destruct (isEOF err); [discriminate |].
    destruct (String.eqb (Error err) "http: request body too large");
      discriminate.
  - destruct (More input); split; try discriminate; try (intros [_ ?]; discriminate).
    + intros _. now split.
    + reflexivity.
Qed.

Lemma decodeBody_status_and_error (input : list Byte.byte) :
  ((decodeBody Decode More input).2 = None <->
   (decodeBody Decode More input).1 = StatusOK) /\
  ((decodeBody Decode More input).1 = StatusOK \/
   (decodeBody Decode More input).1 = StatusBadRequest \/
   (decodeBody Decode More input).1 = StatusRequestEntityTooLarge \/
   (decodeBody Decode More input).1 = StatusInternalServerError).
Proof.
  unfold decodeBody. destruct (Decode input) as [err|].
  - destruct (asSyntaxError err);
      [split; [split; discriminate | simpl; tauto] |].
    destruct (isUnexpectedEOF err);
      [split; [split; discriminate | simpl; tauto] |].
    destruct (asUnmarshalTypeError err) as [[field offset]|];
      [split; [split; discriminate | simpl; tauto] |].
    destruct (HasPrefix (Error err) "json: unknown field");
      [split; [split; discriminate | simpl; tauto] |].
    destruct (isEOF err);
      [split; [split; discriminate | simpl; tauto] |].
    destruct (String.eqb (Error err) "http: request body too large");
      (split; [split; discriminate | simpl; tauto]).
  - destruct (More input);
      (split; [split; (discriminate || reflexivity) | simpl; tauto]).
Qed.

(** X17.  [Unmarshal] answers 200 with a nil error exactly when it is given
    one input (bytes, or a request whose body can be read and whose content
    type is JSON), the decoder accepts it, and nothing follows the decoded
    value. *)
Theorem Unmarshal_succeeds_iff (r : option Request) (data : option (list Byte.byte)) :
  Unmarshal ParseMediaType Decode More r data = (StatusOK, None) <->
  exists input,
    ((r = None /\ data = Some input) \/
     (exists req, r = Some req /\ data = None /\ Body req = (input, None) /\
        HasContentType ParseMediaType req "application/json" = true)) /\
    Decode input = None /\ More input = false.
Proof.
  unfold Unmarshal. destruct r as [req|], data as [bytes|].
  - split; [discriminate |].
    intros (input & [[? _] | (q & _ & ? & _)] & _); discriminate.
  - destruct (Body req) as [bodyBytes [e|]] eqn:Hb.
    + split; [discriminate |].
      intros (input & [[? _] | (q & [= <-] & _ & Hq & _)] & _);
        [discriminate | congruence].
    + destruct (HasContentType ParseMediaType req "application/json") eqn:Hc; simpl.
      * rewrite decodeBody_ok_iff. split.
        -- intros Hok. exists bodyBytes. split; [| exact Hok].
           right. exists req. now rewrite Hb, Hc.
        -- intros (input & [[? _] | (q & [= <-] & _ & Hq & _)] & Hok);
             [discriminate |].
           rewrite Hb in Hq. now injection Hq as <-.
      * split; [discriminate |].
        intros (input & [[? _] | (q & [= <-] & _ & _ & Hq)] & _);
          [discriminate | congruence].
  - rewrite decodeBody_ok_iff. split.
    + intros Hok. exists bytes. split; [now left | exact Hok].
    + intros (input & [[_ [= <-]] | (q & ? & _)] & Hok);
        [exact Hok | discriminate].
  - split; [discriminate |].
    intros (input & [[_ ?] | (q & ? & _)] & _); discriminate.
Qed.

(** X18.  [Unmarshal] returns a nil error exactly with status 200, and its
    status is always one of 200, 400, 413, 415 and 500. *)
Theorem Unmarshal_error_iff_not_ok (r : option Request) (data : option (list Byte.byte)) :
  ((Unmarshal ParseMediaType Decode More r data).2 = None <->
   (Unmarshal ParseMediaType Decode More r data).1 = StatusOK) /\
  ((Unmarshal ParseMediaType Decode More r data).1 = StatusOK \/
   (Unmarshal ParseMediaType Decode More r data).1 = StatusBadRequest \/
   (Unmarshal ParseMediaType Decode More r data).1 = StatusRequestEntityTooLarge \/
   (Unmarshal ParseMediaType Decode More r data).1 = StatusUnsupportedMediaType \/
   (Unmarshal ParseMediaType Decode More r data).1 = StatusInternalServerError).
Proof.
  assert (Hdec : forall input,
    ((decodeBody Decode More input).2 = None <->
     (decodeBody Decode More input).1 = StatusOK) /\
    ((decodeBody Decode More input).1 = StatusOK \/
     (decodeBody Decode More input).1 = StatusBadRequest \/
     (decodeBody Decode More input).1 = StatusRequestEntityTooLarge \/
     (decodeBody Decode More input).1 = StatusUnsupportedMediaType \/
     (decodeBody Decode More input).1 = StatusInternalServerError)).
  { intros input. destruct (decodeBody_status_and_error input) as [Hiff Hin].
    split; [exact Hiff | tauto]. }
  unfold Unmarshal. destruct r as [req|], data as [bytes|].
  - split; [split; discriminate | simpl; tauto].
  - destruct (Body req) as [bodyBytes [e|]].
    + split; [split; discriminate | simpl; tauto].
    + destruct (HasContentType ParseMediaType req "application/json"); simpl.
      * apply Hdec.
      * split; [split; discriminate | tauto].
  - apply Hdec.
  - split; [split; discriminate | simpl; tauto].
Qed.

(** X19.  A readable JSON request and its body passed as bytes get the same
    answer: the content type is checked for requests only. *)
Theorem request_and_bytes_agree (req : Request) (input : list Byte.byte) :
  Body req = (input, None) ->
  HasContentType ParseMediaType req "application/json" = true ->
  Unmarshal ParseMediaType Decode More (Some req) None =
  Unmarshal ParseMediaType Decode More None (Some input).
Proof. intros Hb Hc. unfold Unmarshal. now rewrite Hb, Hc. Qed.

Lemma hasMediaType_true (parts : list string) (mimetype : string) :
  hasMediaType ParseMediaType parts mimetype = true <->
  exists pre v rest,
    parts = (pre ++ v :: rest)%list /\
    ParseMediaType v = Some mimetype /\
    Forall (fun p => is_Some (ParseMediaType p)) pre.
Proof.
  induction parts as [|p parts IH]; simpl.
  - split; [discriminate |]. intros (pre & v & rest & Hp & _).
    now destruct pre.
  - destruct (ParseMediaType p) as [t|] eqn:Hp.
    + destruct (String.eqb_spec t mimetype) as [-> | Hne].
      * split; [intros _ | reflexivity].
        exists [], p, parts. split; [reflexivity |]. split; [exact Hp | constructor].
      * rewrite IH. split.
        -- intros (pre & v & rest & -> & Hv & Hpre).
           exists (p :: pre), v, rest. split; [reflexivity |]. split; [exact Hv |].
           constructor; [rewrite Hp; eauto | exact Hpre].
        -- intros (pre & v & rest & Heq & Hv & Hpre).
           destruct pre as [|q pre]; simpl in Heq; injection Heq as <- ->.
           ++ congruence.
           ++ exists pre, v, rest. split; [reflexivity |]. split; [exact Hv |].
              now inversion Hpre.
    + split; [discriminate |].
      intros (pre & v & rest & Heq & Hv & Hpre).
      destruct pre as [|q pre]; simpl in Heq; injection Heq as <- ->.
      * congruence.
      * inversion Hpre as [|? ? Hq _]. rewrite Hp in Hq. now destruct Hq.
Qed.

(** X20.  [HasContentType] scans the comma-separated values of the header
    from the left and stops at the first one that does not parse: it
    answers true exactly when some value parses to the wanted type and every
    value before it parses.  Without the header only
    [application/octet-stream] is accepted, so a request without a content
    type is not JSON. *)
Theorem HasContentType_scans_until_error (r : Request) (mimetype : string) :
  (ContentType r = "" ->
     HasContentType ParseMediaType r mimetype =
       String.eqb mimetype "application/octet-stream" /\
     HasContentType ParseMediaType r "application/json" = false) /\
  (ContentType r <> "" ->
     HasContentType ParseMediaType r mimetype = true <->
     exists pre v rest,
       Split (ContentType r) "," = (pre ++ v :: rest)%list /\
       ParseMediaType v = Some mimetype /\
       Forall (fun p => is_Some (ParseMediaType p)) pre).
Proof.
  unfold HasContentType. split.
  - intros ->. now split.
  - intros Hne. destruct (String.eqb_spec (ContentType r) ""); [contradiction |].
    apply hasMediaType_true.
Qed.

(** X21.  When the decoder's error is none of a syntax error, an unexpected
    end and a type mismatch, and its text is [json: unknown field ] followed
    by a name, the answer is 400 with the text [unknown field ] and that
    name. *)
Theorem decodeBody_names_unknown_field (input : list Byte.byte) (err : Jsonutil.error)
    (name : string) :
  Decode input = Some err ->
  asSyntaxError err = None ->
  isUnexpectedEOF err = false ->
  asUnmarshalTypeError err = None ->
  Error err = "json: unknown field " +:+ name ->
  decodeBody Decode More input =
    (StatusBadRequest, Some (Errorf ("unknown field " +:+ name))).
Proof.
  intros Hd Hs Hu Ht He. unfold decodeBody. rewrite Hd, Hs, Hu, Ht, He.
  rewrite TrimPrefix_append.
  replace (HasPrefix ("json: unknown field " +:+ name) "json: unknown field")
    with true; [reflexivity |].
  symmetry. unfold HasPrefix.
  change ("json: unknown field " +:+ name)
    with ("json: unknown field" +:+ (" " +:+ name)).
  apply prefix_append.
Qed.

End AdapterMoreFacts.

(* ------------------------------------------------------------------ *)
(** ** The further facts at concrete sessions and requests *)

(** X2 on [updateScene] switched to a scene that [scenes] does not
    declare. *)
Lemma scene_without_fields_checks_everything_witness :
  scenes (AtScene "publish" updateScene) !! scene (AtScene "publish" updateScene)
    = None /\
  isNotNeedToCheck "email"
    (set_sceneFields (sceneFieldMap (AtScene "publish" updateScene))
       (AtScene "publish" updateScene)) = false.
Proof.
  split; [reflexivity |].
  apply scene_without_fields_checks_everything. right. left. reflexivity.
Defined.

(** X3 on [createScene]: [address.city] is checked through its ancestor
    [address]. *)
Lemma scene_selects_listed_fields_witness :
  scene createScene <> "" /\
  scenes createScene !! scene createScene = Some ["name"; "address"] /\
  isNotNeedToCheck "address.city"
    (set_sceneFields (sceneFieldMap createScene) createScene) = false.
Proof.
  split; [discriminate |]. split; [reflexivity |].
  apply (scene_selects_listed_fields createScene ["name"; "address"] "address.city").
  - discriminate.
  - reflexivity.
  - discriminate.
  - intros Hin%list_elem_of_In. simpl in Hin. intuition discriminate.
  - left. exists 1. split; [simpl; lia |].
    apply list_elem_of_In. simpl. auto.
Defined.

(** X4 on [createSceneRun]. *)
Lemma listed_ancestor_admits_descendants_witness :
  sceneFields createSceneRun !! "address" = Some 1%Z /\
  isNotNeedToCheck "address.city.zip" createSceneRun = false.
Proof.
  split; [reflexivity |].
  apply (listed_ancestor_admits_descendants createSceneRun "address" "city.zip").
  exists 1%Z. reflexivity.
Defined.

(** X5 on [cleanSession]. *)
Lemma Filtering_applies_all_rules_witness :
  hasFiltered cleanSession = false /\
  exists v1,
    Filtering sampleApply cleanSession = Ok (set_hasFiltered true v1, IsSuccess v1) /\
    Filtering_applied sampleApply cleanSession = [trimName; lowerEmail].
Proof.
  split; [reflexivity |]. eexists.
  refine (let H := Filtering_applies_all_rules sampleApply cleanSession _ eq_refl _ in
          conj (proj1 H) (proj1 (proj2 H))).
  econstructor; [reflexivity |]. econstructor; [reflexivity |]. constructor.
Defined.

(** X8 on [cleanSession]. *)
Lemma Filtering_succeeds_iff_witness :
  hasFiltered cleanSession = false /\
  exists v' ok,
    Filtering sampleApply cleanSession = Ok (v', ok) /\
    (ok = true <->
     hasError cleanSession = false /\
     exists v1, AppliesOk sampleApply (elems (filterRules cleanSession)) cleanSession v1).
Proof.
  split; [reflexivity |]. eexists. eexists. split; [reflexivity |].
  eapply (Filtering_succeeds_iff sampleApply sampleApply_frame cleanSession);
    reflexivity.
Defined.

(** X9 on [failedSession]. *)
Lemma Filtering_reruns_after_ResetResult_witness :
  hasError failedSession = true /\
  hasFiltered failedSession = true /\
  exists v1,
    Filtering sampleApply (ResetResult failedSession)
      = Ok (set_hasFiltered true v1, true) /\
    Filtering_applied sampleApply (ResetResult failedSession)
      = [trimName; lowerEmail].
Proof.
  split; [reflexivity |]. split; [reflexivity |]. eexists.
  refine (let H := Filtering_reruns_after_ResetResult sampleApply sampleApply_frame
                     failedSession _ _ in
          conj (proj1 H) (proj1 (proj2 H))).
  econstructor; [reflexivity |]. econstructor; [reflexivity |]. constructor.
Defined.

(** X11 on [registeredSession], through the alias [even]. *)
Lemma HasValidator_is_resolved_witness :
  HasValidator ∅ sampleValidatorName "even" registeredSession = true /\
  exists fm,
    validatorMeta ∅ (sampleValidatorName "even") registeredSession =
      Ok (registeredSession, Some fm).
Proof.
  split; [reflexivity |].
  apply (HasValidator_is_resolved ∅ sampleValidatorName registeredSession "even").
  reflexivity.
Defined.

(** X12 on [structSession] and its method [checkAge]. *)
Lemma struct_method_known_after_resolution_witness :
  data structSession = Some userStruct /\
  HasValidator ∅ sampleValidatorName "checkAge" structSession = false /\
  exists v',
    validatorMeta ∅ "checkAge" structSession =
      Ok (v', Some (newFuncMeta "checkAge" false (ValueOf (AFunc "User.checkAge")))) /\
    HasValidator ∅ sampleValidatorName "checkAge" v' = true /\
    Validators ∅ true v' !! "checkAge" = Some validatorTypeCustom.
Proof.
  split; [reflexivity |].
  apply (struct_method_known_after_resolution ∅ sampleValidatorName ∅
           structSession userStruct "checkAge" (ValueOf (AFunc "User.checkAge")));
    reflexivity.
Defined.

(** X13 on [structSession]. *)
Lemma AddValidator_leaves_the_rest_witness :
  exists v1,
    AddValidator sampleCheckFunc "isEven" (AFunc "isEven") structSession = Ok v1 /\
    validators v1 !! "isEven" = Some validatorTypeCustom /\
    data v1 = data structSession.
Proof.
  eexists. split; [reflexivity |].
  refine (let H := AddValidator_leaves_the_rest sampleCheckFunc structSession _
                     "isEven" (AFunc "isEven") eq_refl in
          conj (proj1 (proj2 H)) (proj1 (proj2 (proj2 H)))).
Defined.

(** X14 on [structSession] and [parityChecks]. *)
Lemma AddValidators_registers_every_entry_witness :
  exists v',
    AddValidators sampleCheckFunc parityChecks structSession = Ok v' /\
    validatorMeta ∅ "isOdd" v' =
      Ok (v', Some (newFuncMeta "isOdd" false (ValueOf (AFunc "isOdd")))) /\
    validators v' !! "isOdd" = Some validatorTypeCustom.
Proof.
  pose proof (AddValidators_registers_every_entry ∅ sampleCheckFunc
                parityChecks structSession) as (Hpanic & Hentry & _).
  destruct (AddValidators sampleCheckFunc parityChecks structSession)
    as [v'|] eqn:E.
  - exists v'. split; [reflexivity |].
    apply (Hentry v' "isOdd" (AFunc "isOdd") (ValueOf (AFunc "isOdd")));
      reflexivity.
  - exfalso. destruct (proj1 Hpanic eq_refl) as (name & f & Hm & Hc).
    unfold parityChecks in Hm.
    apply lookup_insert_Some in Hm as [[_ <-] | [_ Hm]]; [discriminate |].
    apply lookup_insert_Some in Hm as [[_ <-] | [_ Hm]]; [discriminate |].
    rewrite lookup_empty in Hm. discriminate.
Defined.

(** X15 on [structSession], whose [age] is zero. *)
Lemma SetDefValue_sets_the_fallback_witness :
  tryGet "age" structSession = Ok (AInt 0, true, true) /\
  GetWithDefault "age" (SetDefValue "age" (AInt 21) structSession) =
    Ok (AInt 21, true, true).
Proof.
  assert (Hget : tryGet "age" structSession = Ok (AInt 0, true, true))
    by reflexivity.
  split; [exact Hget |].
  apply (proj1 (proj2 (SetDefValue_sets_the_fallback structSession "age"
                         (AInt 21) (AInt 0) true true Hget))).
Defined.

(** X16 on [validatedSession]. *)
Lemma Safe_hit_is_a_Get_hit_witness :
  Safe "name" validatedSession = (AString "bob", true) /\
  exists y, Get "name" validatedSession = Ok (y, true) /\
    (filteredData validatedSession !! "name" = None -> y = AString "bob").
Proof.
  split; [reflexivity |].
  destruct (Safe_hit_is_a_Get_hit validatedSession "name" (AString "bob") eq_refl)
    as (y & Hget & Hsame & _).
  exists y. split; [exact Hget | exact Hsame].
Defined.

(** X17 on [jsonRequest]. *)
Lemma Unmarshal_succeeds_iff_witness :
  Jsonutil.Unmarshal Jsonutil.sampleParseMediaType Jsonutil.sampleDecode
    Jsonutil.sampleMore (Some Jsonutil.jsonRequest) None
  = (Jsonutil.StatusOK, None).
Proof.
  apply Unmarshal_succeeds_iff.
  exists [Byte.x7b; Byte.x7d]. split; [| split; reflexivity].
  right. exists Jsonutil.jsonRequest. repeat split; reflexivity.
Defined.

(** X19 on [jsonRequest]. *)
Lemma request_and_bytes_agree_witness :
  Jsonutil.Body Jsonutil.jsonRequest = ([Byte.x7b; Byte.x7d], None) /\
  Jsonutil.Unmarshal Jsonutil.sampleParseMediaType Jsonutil.sampleDecode
    Jsonutil.sampleMore (Some Jsonutil.jsonRequest) None =
  Jsonutil.Unmarshal Jsonutil.sampleParseMediaType Jsonutil.sampleDecode
    Jsonutil.sampleMore None (Some [Byte.x7b; Byte.x7d]).
Proof.
  split; [reflexivity |].
  apply request_and_bytes_agree; reflexivity.
Defined.

(** X20 on [jsonRequest], whose header lists a second type first. *)
Lemma HasContentType_scans_until_error_witness :
  Split (Jsonutil.ContentType Jsonutil.jsonRequest) ","
    = ["text/plain"; "application/json"] /\
  Jsonutil.HasContentType Jsonutil.sampleParseMediaType Jsonutil.jsonRequest
    "application/json" = true.
Proof.
  split; [reflexivity |].
  apply (proj2 (HasContentType_scans_until_error Jsonutil.sampleParseMediaType
                  Jsonutil.jsonRequest "application/json")).
  - discriminate.
  - exists ["text/plain"], "application/json", []. split; [reflexivity |].
    split; [reflexivity |]. constructor; [| constructor]. eexists. reflexivity.
Defined.

(** X21 with a decoder that rejects the field [nick]. *)
Lemma decodeBody_names_unknown_field_witness :
  Jsonutil.decodeBody Jsonutil.sampleStrictDecode Jsonutil.sampleMore [Byte.x7b] =
    (Jsonutil.StatusBadRequest, Some (Jsonutil.Errorf "unknown field nick")).
Proof.
  apply (decodeBody_names_unknown_field Jsonutil.sampleStrictDecode
           Jsonutil.sampleMore [Byte.x7b]
           (Jsonutil.Errorf "json: unknown field nick") "nick");
    reflexivity.
Defined.

(** X22 on [brokenBodyRequest], whose content type is not JSON either. *)
Lemma Unmarshal_read_error_witness :
  Jsonutil.Body Jsonutil.brokenBodyRequest
    = ([], Some (Jsonutil.Errorf "unexpected EOF")) /\
  Jsonutil.Unmarshal Jsonutil.sampleParseMediaType Jsonutil.sampleDecode
    Jsonutil.sampleMore (Some Jsonutil.brokenBodyRequest) None =
    (400%Z, Some (Jsonutil.Errorf "error reading request body")).
Proof.
  split; [reflexivity |].
  apply (Unmarshal_read_error Jsonutil.sampleParseMediaType Jsonutil.sampleDecode
           Jsonutil.sampleMore Jsonutil.brokenBodyRequest []
           (Jsonutil.Errorf "unexpected EOF")).
  reflexivity.
Defined.

(** X23 on [updateSceneRun], whose scene lists the empty name. *)
Lemma isNotNeedToCheck_empty_name_witness :
  sceneFields updateSceneRun !! "" = Some 1%Z /\
  sceneFields updateSceneRun !! "address.city" = None /\
  isNotNeedToCheck "address.city" updateSceneRun = false.
Proof.
  split; [reflexivity |]. split; [reflexivity |].
  apply (isNotNeedToCheck_empty_name updateSceneRun "address.city").
  exists 1%Z. reflexivity.
Defined.
